(** * tcp_skeleton.c: byte buffers, address parser, connections and poll loop

    A shallow embedding of [tcp_skeleton.c] in its default build
    (no [TS_ENABLE_SSL], [TS_ENABLE_IPV6], [TS_ENABLE_HEXDUMP],
    [TS_ENABLE_DEBUG]; POSIX branch of the [_WIN32] conditionals), and the
    properties of the specification checked against it.

    Conventions.
    - A C [int] is a [Z]; the arithmetic the code performs on it is written
      with its 32-bit two's-complement wrap-around ([wrap_int]).  An
      [unsigned int] is a [Z] reduced modulo [2^32].  A C string is the
      [list ascii] of its characters before the terminating NUL.
    - System calls, the allocator and the clock are an oracle [os]: every
      call is numbered ([w_tick]) and the oracle answers from the number and
      the arguments, so that a theorem quantified over [os] covers every
      behaviour of the environment.
    - The intrusive doubly-linked list of connections is a [list]; the head
      of the list is [active_connections]. *)

From Stdlib Require Import String.
From Stdlib Require Import ZArith List Bool Ascii Lia.
Import ListNotations.
Local Open Scope Z_scope.

(* ================================================================== *)
(** ** Machine integers *)

Definition INT_MAX : Z := 2147483647.
Definition INT_MIN : Z := -2147483648.

(** Reduction of a mathematical integer to a 32-bit [int]. *)
Definition wrap_int (x : Z) : Z := (x + 2147483648) mod 4294967296 - 2147483648.

(** Reduction to [unsigned int] and to [uint16_t]. *)
Definition wrap_uint (x : Z) : Z := x mod 4294967296.
Definition to_uint16 (x : Z) : Z := x mod 65536.

(** [IOBUF_RESIZE_MULTIPLIER], the default [2.0].  The product of an [int]
    and [2.0] is exact in a [double] (an [int] has 32 bits, the mantissa
    53), so [new_len * mult] is the integer [new_len * 2]. *)
Definition IOBUF_RESIZE_MULTIPLIER : Z := 2.

(** [(int) (new_len * mult)]: the conversion of the double back to [int].
    In range it is the value itself; out of range C leaves it undefined
    and x86-64 yields [INT_MIN], which is what is recorded here. *)
Definition double_to_int (x : Z) : Z :=
  if (INT_MIN <=? x) && (x <=? INT_MAX) then x else INT_MIN.

(* ================================================================== *)
(** ** Bytes and raw memory *)

Definition byte := Byte.byte.
Definition zero_byte : byte := Byte.x00.

(** [n] bytes of fresh storage; their content is indeterminate in C and
    is fixed to zero here. *)
Definition fresh_bytes (n : Z) : list byte := repeat zero_byte (Z.to_nat n).

(** The [n] bytes read from [src] by [memcpy]/[memmove]. *)
Definition read_bytes (src : list byte) (n : Z) : list byte :=
  map (fun i => nth i src zero_byte) (seq 0 (Z.to_nat n)).

(** [memcpy (dst + off, src, n)] on the storage [dst]. *)
Definition memcpy (dst : list byte) (off : Z) (src : list byte) (n : Z)
  : list byte :=
  firstn (Z.to_nat off) dst ++ read_bytes src n
         ++ skipn (Z.to_nat off + Z.to_nat n) dst.

(** [memmove (dst, dst + off, n)]: the source is read before it is
    overwritten. *)
Definition memmove_down (dst : list byte) (off : Z) (n : Z) : list byte :=
  read_bytes (skipn (Z.to_nat off) dst) n ++ skipn (Z.to_nat n) dst.

(** [realloc (p, n)] that succeeded: the old content up to [n] bytes,
    followed by fresh storage. *)
Definition realloc_bytes (old : list byte) (n : Z) : list byte :=
  firstn (Z.to_nat n) old ++ fresh_bytes (n - Z.of_nat (length old)).

(* ================================================================== *)
(** ** struct iobuf *)

(** [buf] is the storage ([[]] for [NULL]), [len] the number of valid
    bytes, [size] the number of allocated bytes. *)
Record iobuf : Type := mk_iobuf {
  buf : list byte;
  len : Z;
  size : Z
}.

(** What [iobuf_append] asserts on entry, and that the storage has the
    recorded size. *)
Definition iobuf_ok (io : iobuf) : Prop :=
  0 <= len io /\ len io <= size io /\ size io <= INT_MAX
  /\ Z.of_nat (length (buf io)) = size io.

(** The valid bytes of a buffer. *)
Definition iobuf_data (io : iobuf) : list byte :=
  firstn (Z.to_nat (len io)) (buf io).

(** [iobuf_init]; [malloc_ok] is the outcome of [TS_MALLOC (size)], which is
    only consulted when [size > 0]. *)
Definition iobuf_init (malloc_ok : bool) (sz : Z) : iobuf :=
  if (0 <? sz) && malloc_ok
  then mk_iobuf (fresh_bytes sz) 0 sz
  else mk_iobuf [] 0 0.

(** [iobuf_free]: the storage is released and the record reset with
    [iobuf_init (iobuf, 0)], which does not allocate. *)
Definition iobuf_free (io : iobuf) : iobuf := iobuf_init false 0.

(** [iobuf_append].  [realloc_ok] answers whether [TS_REALLOC] of the
    requested number of bytes succeeds; it is consulted only in the third
    branch.  The result is the updated buffer and the returned count.
    The two [assert]s at the head of the function abort the program when
    they fail and vanish under [NDEBUG]; they are not a branch of the
    function, and the theorems on it take them as precondition
    ([iobuf_ok]). *)
Definition iobuf_append (realloc_ok : Z -> bool) (io : iobuf)
           (src : list byte) (n : Z) : iobuf * Z :=
  let new_len := wrap_int (len io + n) in
  if n <=? 0 then (io, n)
  else if new_len <? size io then
    (mk_iobuf (memcpy (buf io) (len io) src n) new_len (size io), n)
  else
    let req := double_to_int (new_len * IOBUF_RESIZE_MULTIPLIER) in
    if realloc_ok req then
      (mk_iobuf (memcpy (realloc_bytes (buf io) req) (len io) src n)
                new_len req, n)
    else (io, 0).

(** [iobuf_remove]. *)
Definition iobuf_remove (io : iobuf) (n : Z) : iobuf :=
  if (0 <=? n) && (n <=? len io)
  then mk_iobuf (memmove_down (buf io) n (len io - n))
                (wrap_int (len io - n)) (size io)
  else io.

(* ================================================================== *)
(** ** Byte order (little-endian host) *)

Definition htons (x : Z) : Z :=
  Z.lor (Z.shiftl (Z.land x 255) 8) (Z.land (Z.shiftr x 8) 255).
Definition ntohs (x : Z) : Z := htons x.

Definition htonl (x : Z) : Z :=
  Z.lor (Z.lor (Z.shiftl (Z.land x 255) 24)
               (Z.shiftl (Z.land (Z.shiftr x 8) 255) 16))
        (Z.lor (Z.shiftl (Z.land (Z.shiftr x 16) 255) 8)
               (Z.land (Z.shiftr x 24) 255)).

(* ================================================================== *)
(** ** sscanf, for the directives the parser uses

    [%u] skips white space, then reads an optionally signed run of decimal
    digits the way [strtoul] does; a literal character must match the next
    input character; [%n] stores the number of characters consumed so far
    and reads nothing.  The value stored by [%u] is the one glibc stores on
    an LP64 host: the [unsigned long] result of [strtoul] (clamped to
    [2^64 - 1] on overflow, negated modulo [2^64] after a minus sign)
    truncated to [unsigned int]. *)

Inductive directive : Type :=
| D_uint                (* %u *)
| D_lit (c : ascii)     (* an ordinary character of the format *)
| D_count.              (* %n *)

Definition char_code (c : ascii) : Z := Z.of_nat (nat_of_ascii c).

Definition isspace (c : ascii) : bool :=
  let k := char_code c in (k =? 32) || ((9 <=? k) && (k <=? 13)).

Definition isdigit (c : ascii) : bool :=
  let k := char_code c in (48 <=? k) && (k <=? 57).

Fixpoint skip_space (s : list ascii) : list ascii :=
  match s with
  | c :: s' => if isspace c then skip_space s' else s
  | [] => []
  end.

(** The longest run of digits at the head of [s]: its value on top of
    [acc], and what follows it. *)
Fixpoint scan_digits (s : list ascii) (acc : Z) : Z * list ascii :=
  match s with
  | c :: s' =>
      if isdigit c then scan_digits s' (acc * 10 + (char_code c - 48))
      else (acc, s)
  | [] => (acc, [])
  end.

Definition ULONG_MAX : Z := 18446744073709551615.

(** The [unsigned int] stored for the digits' value [v] and the sign. *)
Definition strtoul_value (negative : bool) (v : Z) : Z :=
  let ul := if ULONG_MAX <? v then ULONG_MAX
            else if negative then (- v) mod (ULONG_MAX + 1) else v in
  wrap_uint ul.

(** One [%u] on the input [s]: the value stored and the rest of the
    input, or [None] when no number is there. *)
Definition scan_uint (s : list ascii) : option (Z * list ascii) :=
  let s1 := skip_space s in
  let '(negative, s2) :=
    match s1 with
    | c :: s' =>
        if Ascii.eqb c "-"%char then (true, s')
        else if Ascii.eqb c "+"%char then (false, s')
        else (false, s1)
    | [] => (false, [])
    end in
  match s2 with
  | c :: _ =>
      if isdigit c then
        let '(v, rest) := scan_digits s2 0 in
        Some (strtoul_value negative v, rest)
      else None
  | [] => None
  end.

(** The outcome of a call: the returned count of conversions ([EOF = -1]
    when the input ends before the first one), the values stored by the
    [%u]s in order, and the value stored by [%n] if it was reached. *)
Record scan_result : Type := mk_scan {
  scan_ret : Z;
  scan_vals : list Z;
  scan_n : option Z
}.

Definition EOF : Z := -1.

(** What a call returns when it stops at input [s] with [vals] stored and
    [n] written by [%n] so far. *)
Definition scan_stop (s : list ascii) (vals : list Z) (n : option Z)
  : scan_result :=
  let ret := match skip_space s, vals with
             | [], [] => EOF
             | _, _ => Z.of_nat (length vals)
             end in
  mk_scan ret vals n.

(** [total] is the length of the whole input, [s] what is left of it. *)
Fixpoint sscanf_from (total : nat) (fmt : list directive) (s : list ascii)
         (vals : list Z) (n : option Z) : scan_result :=
  match fmt with
  | [] => mk_scan (Z.of_nat (length vals)) vals n
  | D_uint :: fmt' =>
      match scan_uint s with
      | Some (v, rest) => sscanf_from total fmt' rest (vals ++ [v]) n
      | None => scan_stop s vals n
      end
  | D_lit c :: fmt' =>
      match s with
      | c' :: rest =>
          if Ascii.eqb c c' then sscanf_from total fmt' rest vals n
          else scan_stop s vals n
      | [] => scan_stop s vals n
      end
  | D_count :: fmt' =>
      sscanf_from total fmt' s vals (Some (Z.of_nat (total - length s)))
  end.

Definition sscanf (str : list ascii) (fmt : list directive) : scan_result :=
  sscanf_from (length str) fmt str [] None.

(** ["%u.%u.%u.%u:%u%n"] and ["%u%n"]. *)
Definition fmt_ipv4_port : list directive :=
  [D_uint; D_lit "."; D_uint; D_lit "."; D_uint; D_lit "."; D_uint;
   D_lit ":"; D_uint; D_count].
Definition fmt_port : list directive := [D_uint; D_count].

(* ================================================================== *)
(** ** union socket_address (the [sockaddr_in] view) *)

Definition AF_INET : Z := 2.

Record socket_address : Type := mk_sa {
  sin_family : Z;
  sin_port : Z;       (* network byte order *)
  sin_addr : Z        (* network byte order *)
}.

(** [str[i]] for a C string: the terminating NUL follows the characters. *)
Definition str_at (str : list ascii) (i : Z) : ascii :=
  nth (Z.to_nat i) (str ++ [zero]) zero.

(** [parse_port_string]: the returned [int] and the address written
    through [sa].  [len] starts at 0 and is written only by a [%n] that is
    reached; [port] is written by the first call only when all five
    conversions succeed. *)
Definition parse_port_string (str : list ascii) : Z * socket_address :=
  let sa0 := mk_sa AF_INET 0 0 in          (* memset, then sin_family *)
  let r1 := sscanf str fmt_ipv4_port in
  let '(sa, port, len) :=
    if scan_ret r1 =? 5 then
      let a := nth 0 (scan_vals r1) 0 in
      let b := nth 1 (scan_vals r1) 0 in
      let c := nth 2 (scan_vals r1) 0 in
      let d := nth 3 (scan_vals r1) 0 in
      let port := nth 4 (scan_vals r1) 0 in
      let addr := Z.lor (Z.lor (Z.lor (wrap_uint (Z.shiftl a 24))
                                      (wrap_uint (Z.shiftl b 16)))
                               (wrap_uint (Z.shiftl c 8))) d in
      (mk_sa AF_INET (htons (to_uint16 port)) (htonl addr),
       port, match scan_n r1 with Some k => k | None => 0 end)
    else
      let r3 := sscanf str fmt_port in
      if scan_ret r3 =? 1 then
        let port := nth 0 (scan_vals r3) 0 in
        (mk_sa AF_INET (htons (to_uint16 port)) 0,
         port, match scan_n r3 with Some k => k | None => 0 end)
      else (sa0, 0, 0) in
  (if (port <=? 65535) && Ascii.eqb (str_at str len) zero then 1 else 0, sa).

Definition cstr (s : String.string) : list ascii := String.list_ascii_of_string s.

(* ================================================================== *)
(** ** Events, flags and connections *)

(** [enum ts_event], with the constants the source file names. *)
Inductive ts_event : Type :=
| TS_POLL | TS_ACCEPT | TS_CONNECT | TS_RECV | TS_SEND | TS_CLOSE.

(** Modelled from the spec: [tcp_skeleton.h], which defines the [TSF_*] flag
    constants, is not among the sources.  The specification (4.3) lists six
    independent bits that are OR-combined in the flag word; they are given
    one bit each, in the order of its table. *)
Definition TSF_ACCEPTED : Z := 1.
Definition TSF_CONNECTING : Z := 2.
Definition TSF_SSL_HANDSHAKE_DONE : Z := 4.
Definition TSF_FINISHED_SENDING_DATA : Z := 8.
Definition TSF_BUFFER_BUT_DONT_SEND : Z := 16.
Definition TSF_CLOSE_IMMEDIATELY : Z := 32.

Definition INVALID_SOCKET : Z := -1.

(** [struct ts_connection], with the fields the source file uses.  The
    [server] back pointer and the [prev] and [next] links are the position
    of the record in the server's list. *)
Record ts_connection : Type := mk_conn {
  sock : Z;
  recv_iobuf : iobuf;
  send_iobuf : iobuf;
  flags : Z;
  last_io_time : Z;
  connection_data : Z
}.

(** [conn->flags & f] as a condition. *)
Definition has_flag (conn : ts_connection) (f : Z) : bool :=
  negb (Z.land (flags conn) f =? 0).

Definition set_flags (conn : ts_connection) (fl : Z) : ts_connection :=
  mk_conn (sock conn) (recv_iobuf conn) (send_iobuf conn) fl
          (last_io_time conn) (connection_data conn).

Definition set_recv_iobuf (conn : ts_connection) (io : iobuf) : ts_connection :=
  mk_conn (sock conn) io (send_iobuf conn) (flags conn)
          (last_io_time conn) (connection_data conn).

Definition set_send_iobuf (conn : ts_connection) (io : iobuf) : ts_connection :=
  mk_conn (sock conn) (recv_iobuf conn) io (flags conn)
          (last_io_time conn) (connection_data conn).

Definition set_last_io_time (conn : ts_connection) (t : Z) : ts_connection :=
  mk_conn (sock conn) (recv_iobuf conn) (send_iobuf conn) (flags conn)
          t (connection_data conn).

(** The record after [memset] to zero. *)
Definition zero_conn : ts_connection :=
  mk_conn 0 (mk_iobuf [] 0 0) (mk_iobuf [] 0 0) 0 0 0.

(** [FD_SET] / [FD_ISSET] on a descriptor set, and [add_to_set]. *)
Definition fd_set := list Z.
Definition FD_ISSET (s : Z) (set : fd_set) : bool := existsb (Z.eqb s) set.
Definition FD_SET (s : Z) (set : fd_set) : fd_set :=
  if FD_ISSET s set then set else s :: set.

Definition add_to_set (s : Z) (set : fd_set) (max_fd : Z) : fd_set * Z :=
  (FD_SET s set, if max_fd <? s then s else max_fd).

(** [errno] values the code tests (Linux numbering; [EWOULDBLOCK] is
    [EAGAIN] there). *)
Definition EINTR : Z := 4.
Definition EAGAIN : Z := 11.
Definition EWOULDBLOCK : Z := 11.
Definition EINPROGRESS : Z := 115.
Definition ECONNREFUSED : Z := 111.

(* ================================================================== *)
(** ** The environment *)

(** The answers of the operating system, the allocator and the clock.
    The first argument of each is the number of the call. *)
Record os : Type := mk_os {
  os_time : nat -> Z;
  os_malloc : nat -> bool;
  os_realloc : nat -> Z -> bool;
  os_socket : nat -> Z;
  os_setsockopt : nat -> Z -> Z;
  os_bind : nat -> Z -> socket_address -> Z;
  os_listen : nat -> Z -> Z;
  os_getsockname : nat -> Z -> socket_address -> socket_address;
  os_accept : nat -> Z -> Z;
  os_gethostbyname : nat -> list ascii -> option Z;
  (* return value and errno *)
  os_connect : nat -> Z -> socket_address -> Z * Z;
  (* the pending socket error, when the call succeeds *)
  os_getsockopt_error : nat -> Z -> option Z;
  (* return value, errno, and the bytes written to the caller's buffer *)
  os_recv : nat -> Z -> Z -> Z * Z * list byte;
  (* return value and errno *)
  os_send : nat -> Z -> list byte -> Z * Z;
  (* return value, and which descriptors are ready to read and to write *)
  os_select : nat -> Z -> fd_set -> fd_set -> Z -> Z
              -> Z * (Z -> bool) * (Z -> bool)
}.

Section Skeleton.

(** The state of the embedding application. *)
Variable U : Type.
Variable OS : os.

(** [ts_callback_t]: the user function sees its own state and the
    connection, and may change both (4.6: it may append to the send buffer
    and set flags of the connection; it must not touch other connections).
    Its [int] result is ignored by every caller.  The payload is [Some ok]
    for [TS_CONNECT], a pointer to the [int] [ok], and [None] ([NULL])
    otherwise; the third component of the result is the value the function
    stored through that pointer, if it stored one. *)
Definition ts_callback_t : Type :=
  U -> ts_connection -> ts_event -> option Z
  -> U * ts_connection * option Z.

(** An emitted event: the connection as [call_user] received it, the event
    and its payload. *)
Definition emitted : Type := (ts_connection * ts_event * option Z)%type.

Record world : Type := mk_world {
  w_tick : nat;            (* system calls made so far *)
  w_errno : Z;
  w_open : list Z;         (* descriptors created and not closed *)
  w_trace : list emitted;  (* events passed to call_user, oldest first *)
  w_user : U
}.

(** Computations that act on the world. *)
Definition M (A : Type) : Type := world -> A * world.
Definition ret {A} (a : A) : M A := fun w => (a, w).
Definition bind {A B} (m : M A) (k : A -> M B) : M B :=
  fun w => let (a, w') := m w in k a w'.

Notation "x <- m ;; k" := (bind m (fun x => k))
  (at level 61, m at next level, right associativity).
Notation "m ;;; k" := (bind m (fun _ => k))
  (at level 61, right associativity).

(** A system call: the oracle is asked with the number of the call. *)
Definition syscall {A} (f : nat -> A) : M A :=
  fun w => (f (w_tick w),
            mk_world (S (w_tick w)) (w_errno w) (w_open w) (w_trace w)
                     (w_user w)).

(** A system call that reports failure with a negative result sets
    [errno]. *)
Definition syscall_errno (f : nat -> Z * Z) : M Z :=
  fun w => let (r, e) := f (w_tick w) in
           (r, mk_world (S (w_tick w)) (if r <? 0 then e else w_errno w)
                        (w_open w) (w_trace w) (w_user w)).

Definition get_errno : M Z := fun w => (w_errno w, w).

Definition opened (s : Z) : M unit :=
  fun w => (tt, mk_world (w_tick w) (w_errno w)
                         (if s =? INVALID_SOCKET then w_open w
                          else s :: w_open w)
                         (w_trace w) (w_user w)).

Definition closesocket (s : Z) : M unit :=
  fun w => (tt, mk_world (S (w_tick w)) (w_errno w)
                         (filter (fun x => negb (x =? s)) (w_open w))
                         (w_trace w) (w_user w)).

(** [fcntl]/[ioctl] calls whose results the code drops. *)
Definition set_close_on_exec (s : Z) : M unit :=
  syscall (fun _ => tt).
Definition set_non_blocking_mode (s : Z) : M unit :=
  syscall (fun _ => tt) ;;; syscall (fun _ => tt).

(** [call_user]: the event is emitted, and handed to the callback when the
    server has one.  This is the call as every caller but one makes it,
    with a payload whose content it does not read back. *)
Definition call_user (cb : option ts_callback_t) (conn : ts_connection)
           (ev : ts_event) (p : option Z) : M ts_connection :=
  fun w =>
    let tr := w_trace w ++ [(conn, ev, p)] in
    match cb with
    | Some f =>
        let '(u, conn', _) := f (w_user w) conn ev p in
        (conn', mk_world (w_tick w) (w_errno w) (w_open w) tr u)
    | None =>
        (conn, mk_world (w_tick w) (w_errno w) (w_open w) tr (w_user w))
    end.

(** [call_user (conn, ev, &ok)]: the same call with a pointer to the [int]
    [ok] as payload; the result is the connection and the value of [ok]
    afterwards, which is the one the callback stored, or the old one when
    it stored nothing or there is no callback. *)
Definition call_user_payload (cb : option ts_callback_t)
           (conn : ts_connection) (ev : ts_event) (ok : Z)
  : M (ts_connection * Z) :=
  fun w =>
    let tr := w_trace w ++ [(conn, ev, Some ok)] in
    match cb with
    | Some f =>
        let '(u, conn', stored) := f (w_user w) conn ev (Some ok) in
        ((conn', match stored with Some v => v | None => ok end),
         mk_world (w_tick w) (w_errno w) (w_open w) tr u)
    | None =>
        ((conn, ok),
         mk_world (w_tick w) (w_errno w) (w_open w) tr (w_user w))
    end.

(** [close_conn], but for [REMOVE_CONNECTION]: the caller, which walks the
    list, drops the record from it. *)
Definition close_conn (cb : option ts_callback_t) (conn : ts_connection)
  : M unit :=
  conn' <- call_user cb conn TS_CLOSE None ;;
  closesocket (sock conn').

(** [is_error]. *)
Definition is_error (n : Z) : M bool :=
  e <- get_errno ;;
  ret ((n =? 0) ||
       ((n <? 0) && negb (e =? EINTR) && negb (e =? EINPROGRESS)
        && negb (e =? EAGAIN) && negb (e =? EWOULDBLOCK))).

(** [iobuf_append] with the allocator of the environment.  The step takes
    one number of the call sequence whether or not the allocator is
    reached. *)
Definition iobuf_append_m (io : iobuf) (src : list byte) (n : Z)
  : M (iobuf * Z) :=
  fun w =>
    let realloc_ok := os_realloc OS (w_tick w) in
    (iobuf_append realloc_ok io src n,
     mk_world (S (w_tick w)) (w_errno w) (w_open w) (w_trace w) (w_user w)).

(** [ts_send]. *)
Definition ts_send (conn : ts_connection) (src : list byte) (n : Z)
  : M (ts_connection * Z) :=
  r <- iobuf_append_m (send_iobuf conn) src n ;;
  ret (set_send_iobuf conn (fst r), snd r).

(** [conn->flags |= f] and [conn->flags &= ~f]. *)
Definition flag_on (conn : ts_connection) (f : Z) : ts_connection :=
  set_flags conn (Z.lor (flags conn) f).
Definition flag_off (conn : ts_connection) (f : Z) : ts_connection :=
  set_flags conn (Z.land (flags conn) (Z.lnot f)).

(** [recv (sock, buf, sizeof (buf), 0)]: the result and the scratch
    buffer. *)
Definition recv (s : Z) (n : Z) : M (Z * list byte) :=
  fun w =>
    let '(r, e, data) := os_recv OS (w_tick w) s n in
    ((r, data),
     mk_world (S (w_tick w)) (if r <? 0 then e else w_errno w)
              (w_open w) (w_trace w) (w_user w)).

(** [read_from_socket].  In the connecting branch the callback receives a
    pointer to [ok], and [ok] is tested after the call, as the callback left
    it. *)
Definition read_from_socket (cb : option ts_callback_t)
           (conn : ts_connection) : M ts_connection :=
  if has_flag conn TSF_CONNECTING then
    let conn := flag_off conn TSF_CONNECTING in
    r <- syscall (fun t => os_getsockopt_error OS t (sock conn)) ;;
    let ok := match r with Some v => v | None => 1 end in
    a <- call_user_payload cb conn TS_CONNECT ok ;;
    ret (if negb (snd a =? 0) then flag_on (fst a) TSF_CLOSE_IMMEDIATELY
         else fst a)
  else
    r <- recv (sock conn) 2048 ;;
    let n := fst r in
    e <- is_error n ;;
    conn <- (if e then ret (flag_on conn TSF_CLOSE_IMMEDIATELY)
             else if 0 <? n then
               a <- iobuf_append_m (recv_iobuf conn) (snd r) n ;;
               call_user cb (set_recv_iobuf conn (fst a)) TS_RECV None
             else ret conn) ;;
    call_user cb conn TS_RECV None.

(** [write_to_socket]. *)
Definition write_to_socket (cb : option ts_callback_t)
           (conn : ts_connection) : M ts_connection :=
  let io := send_iobuf conn in
  n <- syscall_errno (fun t => os_send OS t (sock conn) (iobuf_data io)) ;;
  e <- is_error n ;;
  let conn := if e then flag_on conn TSF_CLOSE_IMMEDIATELY
              else if 0 <? n then set_send_iobuf conn (iobuf_remove io n)
              else conn in
  let conn := if (len (send_iobuf conn) =? 0)
                 && has_flag conn TSF_FINISHED_SENDING_DATA
              then flag_on conn TSF_CLOSE_IMMEDIATELY else conn in
  call_user cb conn TS_SEND None.

(* ================================================================== *)
(** ** The server *)

(** [struct ts_server]; [active_connections] is the list from its head. *)
Record ts_server : Type := mk_server {
  listening_sock : Z;
  active_connections : list ts_connection;
  callback : option ts_callback_t;
  server_data : Z
}.

Definition set_listening_sock (s : ts_server) (l : Z) : ts_server :=
  mk_server l (active_connections s) (callback s) (server_data s).

Definition set_active_connections (s : ts_server) (l : list ts_connection)
  : ts_server :=
  mk_server (listening_sock s) l (callback s) (server_data s).

(** [ADD_CONNECTION]: the record becomes the head of the list. *)
Definition ADD_CONNECTION (s : ts_server) (conn : ts_connection) : ts_server :=
  set_active_connections s (conn :: active_connections s).

(** [open_listening_socket]: the returned socket and [*sa] afterwards. *)
Definition open_listening_socket (sa : socket_address)
  : M (Z * socket_address) :=
  s <- syscall (os_socket OS) ;;
  opened s ;;;
  if s =? INVALID_SOCKET then ret (INVALID_SOCKET, sa)
  else
    let close_and_fail := closesocket s ;;; ret (INVALID_SOCKET, sa) in
    r1 <- syscall (fun t => os_setsockopt OS t s) ;;
    if negb (r1 =? 0) then close_and_fail else
    r2 <- syscall (fun t => os_bind OS t s sa) ;;
    if negb (r2 =? 0) then close_and_fail else
    r3 <- syscall (fun t => os_listen OS t s) ;;
    if negb (r3 =? 0) then close_and_fail else
    set_non_blocking_mode s ;;;
    sa' <- syscall (fun t => os_getsockname OS t s sa) ;;
    ret (s, sa').

(** [ts_bind_to]: the returned port and the server afterwards.  The result
    of [parse_port_string] is dropped, as in the source. *)
Definition ts_bind_to (server : ts_server) (str : list ascii)
  : M (Z * ts_server) :=
  let sa := snd (parse_port_string str) in
  r <- open_listening_socket sa ;;
  ret (ntohs (sin_port (snd r)), set_listening_sock server (fst r)).

(** [accept_conn]: whether a connection was returned (it is then the head
    of the list), and the server afterwards. *)
Definition accept_conn (server : ts_server) : M (bool * ts_server) :=
  s <- syscall (fun t => os_accept OS t (listening_sock server)) ;;
  opened s ;;;
  if s =? INVALID_SOCKET then closesocket s ;;; ret (false, server)
  else
    ok <- syscall (os_malloc OS) ;;
    if negb ok then closesocket s ;;; ret (false, server)
    else
      set_close_on_exec s ;;;
      set_non_blocking_mode s ;;;
      let c := mk_conn s (recv_iobuf zero_conn) (send_iobuf zero_conn)
                       (Z.lor (flags zero_conn) TSF_ACCEPTED)
                       (last_io_time zero_conn) (connection_data zero_conn) in
      c' <- call_user (callback server) c TS_ACCEPT None ;;
      ret (true, ADD_CONNECTION server c').

(** The descriptor sets and [max_fd] built before [select]. *)
Record interest : Type := mk_interest {
  read_set : fd_set;
  write_set : fd_set;
  max_fd : Z
}.

Definition arm_read (s : Z) (i : interest) : interest :=
  let (rs, m) := add_to_set s (read_set i) (max_fd i) in
  mk_interest rs (write_set i) m.
Definition arm_write (s : Z) (i : interest) : interest :=
  let (ws, m) := add_to_set s (write_set i) (max_fd i) in
  mk_interest (read_set i) ws m.

(** First loop of [ts_server_poll]: the connections that stay on the list
    and the interest sets. *)
Fixpoint poll_prepare (cb : option ts_callback_t)
         (conns : list ts_connection) (i : interest)
  : M (list ts_connection * interest) :=
  match conns with
  | [] => ret ([], i)
  | conn :: rest =>
      conn <- call_user cb conn TS_POLL None ;;
      let i := arm_read (sock conn) i in
      let i := if has_flag conn TSF_CONNECTING
               then arm_write (sock conn) i else i in
      if (0 <? len (send_iobuf conn))
         && negb (has_flag conn TSF_BUFFER_BUT_DONT_SEND)
      then
        r <- poll_prepare cb rest (arm_write (sock conn) i) ;;
        ret (conn :: fst r, snd r)
      else if has_flag conn TSF_CLOSE_IMMEDIATELY then
        close_conn cb conn ;;;
        poll_prepare cb rest i
      else
        r <- poll_prepare cb rest i ;;
        ret (conn :: fst r, snd r)
  end.

(** Second loop: the ready connections are served. *)
Fixpoint poll_service (cb : option ts_callback_t) (rset wset : fd_set)
         (current_time : Z) (conns : list ts_connection)
  : M (list ts_connection) :=
  match conns with
  | [] => ret []
  | conn :: rest =>
      conn <- (if FD_ISSET (sock conn) rset
               then read_from_socket cb (set_last_io_time conn current_time)
               else ret conn) ;;
      conn <- (if FD_ISSET (sock conn) wset then
                 if has_flag conn TSF_CONNECTING
                 then read_from_socket cb conn
                 else if negb (has_flag conn TSF_BUFFER_BUT_DONT_SEND)
                 then write_to_socket cb (set_last_io_time conn current_time)
                 else ret conn
               else ret conn) ;;
      rest' <- poll_service cb rset wset current_time rest ;;
      ret (conn :: rest')
  end.

(** Third loop: the flagged connections are closed; every connection
    visited increments [num_active_connections]. *)
Fixpoint poll_reap (cb : option ts_callback_t) (conns : list ts_connection)
         (num_active_connections : Z) : M (list ts_connection * Z) :=
  match conns with
  | [] => ret ([], num_active_connections)
  | conn :: rest =>
      if has_flag conn TSF_CLOSE_IMMEDIATELY then
        close_conn cb conn ;;;
        poll_reap cb rest (wrap_int (num_active_connections + 1))
      else
        r <- poll_reap cb rest (wrap_int (num_active_connections + 1)) ;;
        ret (conn :: fst r, snd r)
  end.

Definition with_head_time (conns : list ts_connection) (t : Z)
  : list ts_connection :=
  match conns with
  | c :: rest => set_last_io_time c t :: rest
  | [] => []
  end.

(** [ts_server_poll] from the first loop to the end of the second, for a
    server that has a listening socket. *)
Definition poll_io (server : ts_server) (milli : Z) (current_time : Z)
  : M ts_server :=
  let cb := callback server in
  let i0 := arm_read (listening_sock server) (mk_interest [] [] (-1)) in
  p <- poll_prepare cb (active_connections server) i0 ;;
  let server := set_active_connections server (fst p) in
  let i := snd p in
  let tv_sec := Z.quot milli 1000 in
  let tv_usec := wrap_int (Z.rem milli 1000 * 1000) in
  sel <- syscall (fun t => os_select OS t (wrap_int (max_fd i + 1))
                                     (read_set i) (write_set i)
                                     tv_sec tv_usec) ;;
  let '(r, rready, wready) := sel in
  if 0 <? r then
    let rset := filter rready (read_set i) in
    let wset := filter wready (write_set i) in
    server <- (if FD_ISSET (listening_sock server) rset then
                 a <- accept_conn server ;;
                 ret (if fst a
                      then set_active_connections (snd a)
                             (with_head_time (active_connections (snd a))
                                             current_time)
                      else snd a)
               else ret server) ;;
    conns <- poll_service cb rset wset current_time
                          (active_connections server) ;;
    ret (set_active_connections server conns)
  else ret server.

(** [ts_server_poll]: the returned count and the server afterwards. *)
Definition ts_server_poll (server : ts_server) (milli : Z)
  : M (Z * ts_server) :=
  current_time <- syscall (os_time OS) ;;
  if listening_sock server =? INVALID_SOCKET then ret (0, server)
  else
    server <- poll_io server milli current_time ;;
    r <- poll_reap (callback server) (active_connections server) 0 ;;
    ret (snd r, set_active_connections server (fst r)).

(** [ts_connect]: the returned [int] and the server afterwards.  [host] is
    [None] for a [NULL] pointer.  [MONGOOSE_USE_SSL] is not defined, so a
    request for SSL returns 0. *)
Definition ts_connect (server : ts_server) (host : option (list ascii))
           (port : Z) (use_ssl : Z) (param : Z) : M (Z * ts_server) :=
  match host with
  | None => ret (0, server)
  | Some h =>
      he <- syscall (fun t => os_gethostbyname OS t h) ;;
      match he with
      | None => ret (0, server)
      | Some addr =>
          s <- syscall (os_socket OS) ;;
          opened s ;;;
          if s =? INVALID_SOCKET then ret (0, server)
          else if negb (use_ssl =? 0) then ret (0, server)
          else
            let sin := mk_sa AF_INET (htons (to_uint16 port)) addr in
            set_non_blocking_mode s ;;;
            connect_ret_val <-
              syscall_errno (fun t => os_connect OS t s sin) ;;
            e <- is_error connect_ret_val ;;
            if e then ret (0, server)
            else
              ok <- syscall (os_malloc OS) ;;
              if negb ok then closesocket s ;;; ret (0, server)
              else
                let conn := mk_conn s (recv_iobuf zero_conn)
                                    (send_iobuf zero_conn) TSF_CONNECTING
                                    (last_io_time zero_conn) param in
                ret (1, ADD_CONNECTION server conn)
      end
  end.

(** [ts_server_init]. *)
Definition ts_server_init (data : Z) (cb : option ts_callback_t)
  : ts_server :=
  mk_server INVALID_SOCKET [] cb data.

(** The closing loop of [ts_server_free]. *)
Fixpoint close_all (cb : option ts_callback_t) (conns : list ts_connection)
  : M unit :=
  match conns with
  | [] => ret tt
  | conn :: rest => close_conn cb conn ;;; close_all cb rest
  end.

(** [ts_server_free], for a server pointer that is not [NULL]. *)
Definition ts_server_free (s : ts_server) : M ts_server :=
  r <- ts_server_poll s 0 ;;
  let s := snd r in
  (if negb (listening_sock s =? INVALID_SOCKET)
   then closesocket (listening_sock s) else ret tt) ;;;
  close_all (callback s) (active_connections s) ;;;
  ret (set_active_connections s []).

End Skeleton.

Arguments call_user {U} cb conn ev p _.
Arguments call_user_payload {U} cb conn ev ok _.
Arguments close_conn {U} cb conn _.
Arguments closesocket {U} s _.
Arguments ret {U A} a _.
Arguments bind {U A B} m k _.
Arguments mk_world {U} _ _ _ _ _.
Arguments w_tick {U} _.
Arguments w_errno {U} _.
Arguments w_open {U} _.
Arguments w_trace {U} _.
Arguments w_user {U} _.
Arguments mk_server {U} _ _ _ _.
Arguments listening_sock {U} _.
Arguments active_connections {U} _.
Arguments callback {U} _.
Arguments server_data {U} _.
Arguments set_active_connections {U} s l.
Arguments set_listening_sock {U} s l.
Arguments ADD_CONNECTION {U} s conn.
Arguments read_from_socket {U} OS cb conn _.
Arguments write_to_socket {U} OS cb conn _.
Arguments ts_send {U} OS conn src n _.
Arguments open_listening_socket {U} OS sa _.
Arguments ts_bind_to {U} OS server str _.
Arguments accept_conn {U} OS server _.
Arguments poll_prepare {U} cb conns i _.
Arguments poll_service {U} OS cb rset wset current_time conns _.
Arguments poll_reap {U} cb conns num_active_connections _.
Arguments poll_io {U} OS server milli current_time _.
Arguments ts_server_poll {U} OS server milli _.
Arguments ts_connect {U} OS server host port use_ssl param _.
Arguments ts_server_init {U} data cb.
Arguments ts_server_free {U} OS s _.
Arguments syscall {U A} f _.

(** The events of a trace, without the connection snapshots. *)
Definition event_names {U : Type} (w : world U) : list ts_event :=
  map (fun e : emitted => snd (fst e)) (w_trace w).

(** The server and the world in which the third loop of [ts_server_poll]
    starts, for a server that has a listening socket. *)
Definition poll_before_reap {U : Type} (OS : os) (server : ts_server U)
           (milli : Z) (w : world U) : ts_server U * world U :=
  let (current_time, w1) := syscall (os_time OS) w in
  poll_io OS server milli current_time w1.

(** Whether a connection is marked for closing. *)
Definition doomed (conn : ts_connection) : bool :=
  has_flag conn TSF_CLOSE_IMMEDIATELY.


(* ================================================================== *)
(** ** Concrete inputs

    Buffers, environments and servers at which the properties below are
    evaluated.  The application state is [unit]. *)

Definition sample_iobuf : iobuf :=
  mk_iobuf [Byte.x68; Byte.x69; zero_byte; zero_byte] 2 4.

(** An environment in which descriptor 3 is the next socket, descriptor 4
    the next accepted connection, every set-up call succeeds, and
    [connect], [recv], [send], [malloc] and [select] answer as given. *)
Definition sample_os (connect_result : Z * Z) (malloc_ok : bool)
           (recv_result : Z * Z * list byte) (send_result : Z * Z)
           (select_result : Z * (Z -> bool) * (Z -> bool)) : os :=
  mk_os (fun _ => 1000)
        (fun _ => malloc_ok)
        (fun _ _ => true)
        (fun _ => 3)
        (fun _ _ => 0)
        (fun _ _ _ => 0)
        (fun _ _ => 0)
        (fun _ _ sa => sa)
        (fun _ _ => 4)
        (fun _ _ => Some 16777343)
        (fun _ _ _ => connect_result)
        (fun _ _ => Some 0)
        (fun _ _ _ => recv_result)
        (fun _ _ _ => send_result)
        (fun _ _ _ _ _ _ => select_result).

Definition nothing_ready : Z * (Z -> bool) * (Z -> bool) :=
  (0, fun _ => false, fun _ => false).

(** Every call succeeds; [connect] is in progress; nothing is ready. *)
Definition calm_os : os :=
  sample_os (-1, EINPROGRESS) true (-1, EAGAIN, []) (-1, EAGAIN) nothing_ready.

(** [connect] is refused at once. *)
Definition refusing_os : os :=
  sample_os (-1, ECONNREFUSED) true (-1, EAGAIN, []) (-1, EAGAIN) nothing_ready.

(** [connect] is in progress but no connection record can be allocated. *)
Definition no_memory_os : os :=
  sample_os (-1, EINPROGRESS) false (-1, EAGAIN, []) (-1, EAGAIN) nothing_ready.

Definition hello : list byte :=
  [Byte.x68; Byte.x65; Byte.x6c; Byte.x6c; Byte.x6f].

(** [recv] delivers the five bytes of [hello]. *)
Definition hello_os : os :=
  sample_os (-1, EINPROGRESS) true (5, 0, hello) (-1, EAGAIN) nothing_ready.

(** The world before anything happened. *)
Definition world0 : world unit := mk_world 0 0 [] [] tt.

(** A callback that looks at nothing and changes nothing. *)
Definition quiet_callback : ts_callback_t unit :=
  fun u conn _ _ => (u, conn, None).

(** A server fresh from [ts_server_init]: no listener, no connection. *)
Definition fresh_server : ts_server unit :=
  ts_server_init 0 (Some quiet_callback).

(** An established connection on descriptor 7 with empty buffers. *)
Definition idle_conn : ts_connection :=
  mk_conn 7 (mk_iobuf [] 0 0) (mk_iobuf [] 0 0) TSF_ACCEPTED 0 0.

(** The same connection marked for closing. *)
Definition doomed_conn : ts_connection :=
  flag_on idle_conn TSF_CLOSE_IMMEDIATELY.

(** A second established connection, on descriptor 8. *)
Definition other_conn : ts_connection :=
  mk_conn 8 (mk_iobuf [] 0 0) (mk_iobuf [] 0 0) TSF_ACCEPTED 0 0.

(** Descriptor 7 is ready to read and [recv] returns 0: its peer has
    closed. *)
Definition peer_closed_os : os :=
  sample_os (-1, EINPROGRESS) true (0, 0, []) (-1, EAGAIN)
            (1, fun s => s =? 7, fun _ => false).

(** A server without listening socket that has one connection, as after
    [ts_connect] or a failed [ts_bind_to]. *)
Definition unbound_server : ts_server unit :=
  mk_server INVALID_SOCKET [idle_conn] (Some quiet_callback) 0.

(** The same with the connection marked for closing. *)
Definition unbound_doomed_server : ts_server unit :=
  mk_server INVALID_SOCKET [doomed_conn] (Some quiet_callback) 0.

(** A server listening on descriptor 3 with two connections. *)
Definition bound_server : ts_server unit :=
  mk_server 3 [idle_conn; other_conn] (Some quiet_callback) 0.

(** A connection whose user queued "bye" and then signalled the end of
    its output. *)
Definition bye_conn : ts_connection :=
  mk_conn 7 (mk_iobuf [] 0 0)
          (mk_iobuf [Byte.x62; Byte.x79; Byte.x65; zero_byte] 3 4)
          (Z.lor TSF_ACCEPTED TSF_FINISHED_SENDING_DATA) 0 0.

(** [send] takes the three bytes offered. *)
Definition sending_os : os :=
  sample_os (-1, EINPROGRESS) true (-1, EAGAIN, []) (3, 0) nothing_ready.

(* ================================================================== *)
(** ** Vocabulary for the further properties *)

Arguments M U A : clear implicits.
Arguments syscall_errno {U} f _.
Arguments get_errno {U} _.
Arguments opened {U} s _.
Arguments set_close_on_exec {U} s _.
Arguments set_non_blocking_mode {U} s _.
Arguments is_error {U} n _.
Arguments iobuf_append_m {U} OS io src n _.
Arguments recv {U} OS s n _.
Arguments close_all {U} cb conns _.

(** The classification [is_error] makes of a result [n] when [errno] is
    [e]. *)
Definition hard_error (n e : Z) : bool :=
  (n =? 0)
  || ((n <? 0) && negb (e =? EINTR) && negb (e =? EINPROGRESS)
      && negb (e =? EAGAIN) && negb (e =? EWOULDBLOCK)).

(** The number a run of decimal digits denotes. *)
Definition decimal_value (s : list ascii) : Z :=
  fold_left (fun acc c => acc * 10 + (char_code c - 48)) s 0.

Definition ts_event_eqb (a b : ts_event) : bool :=
  match a, b with
  | TS_POLL, TS_POLL | TS_ACCEPT, TS_ACCEPT | TS_CONNECT, TS_CONNECT
  | TS_RECV, TS_RECV | TS_SEND, TS_SEND | TS_CLOSE, TS_CLOSE => true
  | _, _ => false
  end.

(** How often an event occurs in a sequence of events. *)
Definition count_event (e : ts_event) (l : list ts_event) : nat :=
  length (filter (ts_event_eqb e) l).

(** [emits m Q]: from every world, the computation [m] appends a sequence
    of events to the trace, and its result and that sequence satisfy
    [Q]. *)
Definition emits {U A : Type} (m : M U A) (Q : A -> list ts_event -> Prop)
  : Prop :=
  forall w : world U,
    exists l, event_names (snd (m w)) = event_names w ++ l
              /\ Q (fst (m w)) l.

(** The events of the receive and send passes. *)
Definition io_event (e : ts_event) : Prop :=
  e = TS_CONNECT \/ e = TS_RECV \/ e = TS_SEND.

(** The events of the first loop of [ts_server_poll]. *)
Definition sweep_event (e : ts_event) : Prop := e = TS_POLL \/ e = TS_CLOSE.

(** What one call of [ts_server_poll] emits, for [before] connections on
    the list at the start and [after] at the end: first a stretch of
    [TS_POLL] and [TS_CLOSE] events with one [TS_POLL] for each connection,
    then no further [TS_POLL]; at most one [TS_ACCEPT]; and every
    connection that left the list was closed. *)
Definition pass_events (before after : nat) (l : list ts_event) : Prop :=
  exists l1 l2,
    l = l1 ++ l2 /\
    Forall sweep_event l1 /\ count_event TS_POLL l1 = before /\
    count_event TS_POLL l2 = 0%nat /\
    (count_event TS_ACCEPT l <= 1)%nat /\
    (after + count_event TS_CLOSE l = before + count_event TS_ACCEPT l)%nat.

(** What the first loop emits for [n] connections when it keeps the list
    [r]. *)
Definition sweep_summary (n : nat) (r : list ts_connection)
           (l : list ts_event) : Prop :=
  Forall sweep_event l /\
  count_event TS_POLL l = n /\
  (length r + count_event TS_CLOSE l = n)%nat.

(** The events that can follow the first loop, but for [TS_CLOSE]. *)
Definition late_event (e : ts_event) : Prop := e = TS_ACCEPT \/ io_event e.

(** [s'] differs from [s] at most in its list of connections. *)
Definition same_frame {U : Type} (s s' : ts_server U) : Prop :=
  listening_sock s' = listening_sock s /\
  callback s' = callback s /\
  server_data s' = server_data s.

(** What the first two loops emit for [n] connections when they leave the
    server [s1]. *)
Definition io_summary {U : Type} (n : nat) (s1 : ts_server U)
           (l : list ts_event) : Prop :=
  exists l1 l2,
    l = l1 ++ l2 /\
    Forall sweep_event l1 /\ count_event TS_POLL l1 = n /\
    Forall late_event l2 /\ (count_event TS_ACCEPT l2 <= 1)%nat /\
    (length (active_connections s1) + count_event TS_CLOSE l1
     = n + count_event TS_ACCEPT l2)%nat.

(** [select] never reports a ready descriptor. *)
Definition select_idle (OS : os) : Prop :=
  forall (t : nat) (nfds : Z) (rs ws : fd_set) (sec usec : Z),
    fst (fst (os_select OS t nfds rs ws sec usec)) <= 0.

(** Every descriptor of the two sets is at most [max_fd]. *)
Definition interest_bounded (i : interest) : Prop :=
  forall x, FD_ISSET x (read_set i) = true \/ FD_ISSET x (write_set i) = true ->
            x <= max_fd i.

(** [j] has every descriptor of [i]. *)
Definition interest_le (i j : interest) : Prop :=
  (forall x, FD_ISSET x (read_set i) = true -> FD_ISSET x (read_set j) = true)
  /\ (forall x, FD_ISSET x (write_set i) = true ->
                FD_ISSET x (write_set j) = true).

(** What the first loop has armed for a connection it keeps. *)
Definition armed (i : interest) (c : ts_connection) : Prop :=
  FD_ISSET (sock c) (read_set i) = true /\
  (has_flag c TSF_CONNECTING = true ->
   FD_ISSET (sock c) (write_set i) = true) /\
  (0 < len (send_iobuf c) ->
   has_flag c TSF_BUFFER_BUT_DONT_SEND = false ->
   FD_ISSET (sock c) (write_set i) = true).

(** The interest sets for a server whose listening socket is [l], before
    the first loop. *)
Definition listener_interest (l : Z) : interest :=
  arm_read l (mk_interest [] [] (-1)).

(** An environment like [calm_os] in which the pending error of every
    socket is [ECONNREFUSED]. *)
Definition late_refusal_os : os :=
  mk_os (os_time calm_os) (os_malloc calm_os) (os_realloc calm_os)
        (os_socket calm_os) (os_setsockopt calm_os) (os_bind calm_os)
        (os_listen calm_os) (os_getsockname calm_os) (os_accept calm_os)
        (os_gethostbyname calm_os) (os_connect calm_os)
        (fun _ _ => Some ECONNREFUSED)
        (os_recv calm_os) (os_send calm_os) (os_select calm_os).

(** A callback that stores 0 in the status of [TS_CONNECT]. *)
Definition forgiving_callback : ts_callback_t unit :=
  fun u conn ev _ =>
    (u, conn, match ev with TS_CONNECT => Some 0 | _ => None end).

(** An outbound connection whose [connect] is still in progress. *)
Definition connecting_conn : ts_connection :=
  mk_conn 7 (mk_iobuf [] 0 0) (mk_iobuf [] 0 0) TSF_CONNECTING 0 0.

(* ================================================================== *)
(** * Properties *)

(** ** Byte buffer *)

Lemma wrap_int_small (x : Z) : INT_MIN <= x <= INT_MAX -> wrap_int x = x.
Proof.
  unfold wrap_int, INT_MIN, INT_MAX. intros H.
  rewrite Z.mod_small by lia. lia.
Qed.

Lemma wrap_int_overflow (x : Z) :
  INT_MAX < x <= 2 * INT_MAX -> wrap_int x < 0.
Proof.
  unfold wrap_int, INT_MAX. intros H.
  replace (x + 2147483648) with ((x - 2147483648) + 1 * 4294967296) by lia.
  rewrite Z.mod_add by lia. rewrite Z.mod_small by lia. lia.
Qed.

Lemma double_to_int_small (x : Z) :
  INT_MIN <= x <= INT_MAX -> double_to_int x = x.
Proof.
  unfold double_to_int. intros [H1 H2].
  apply Z.leb_le in H1. apply Z.leb_le in H2. now rewrite H1, H2.
Qed.

Lemma read_bytes_length (src : list byte) (n : Z) :
  length (read_bytes src n) = Z.to_nat n.
Proof. unfold read_bytes. now rewrite length_map, length_seq. Qed.

Lemma memcpy_length (dst src : list byte) (off n : Z) :
  0 <= off -> 0 <= n -> off + n <= Z.of_nat (length dst) ->
  length (memcpy dst off src n) = length dst.
Proof.
  intros Ho Hn Hb. unfold memcpy.
  rewrite !length_app, read_bytes_length, length_firstn, length_skipn. lia.
Qed.

Lemma realloc_bytes_length (old : list byte) (n : Z) :
  0 <= n -> Z.of_nat (length (realloc_bytes old n)) = n.
Proof.
  intros Hn. unfold realloc_bytes, fresh_bytes.
  rewrite length_app, length_firstn, repeat_length. lia.
Qed.

(** In the branches of [iobuf_append] that are reached without overflow,
    the sum [io->len + len] is the mathematical one. *)
Lemma new_len_exact (io : iobuf) (n : Z) :
  iobuf_ok io -> 0 < n <= INT_MAX ->
  size io <= wrap_int (len io + n) ->
  wrap_int (len io + n) = len io + n /\ len io + n <= INT_MAX.
Proof.
  intros (H0 & H1 & H2 & _) Hn Hge.
  destruct (Z_le_gt_dec (len io + n) INT_MAX) as [Hle | Hgt].
  - split; [apply wrap_int_small; unfold INT_MIN, INT_MAX in *; lia | lia].
  - assert (wrap_int (len io + n) < 0) by (apply wrap_int_overflow; lia).
    lia.
Qed.

(** For a count that is not negative and a sum that does not overflow, the
    returned value is the growth of the length: the whole count, or zero
    with the buffer untouched when the allocator refuses. *)
Lemma iobuf_append_count (realloc_ok : Z -> bool) (io : iobuf)
      (src : list byte) (n : Z) :
  iobuf_ok io -> 0 <= n -> len io + n <= INT_MAX ->
  let r := iobuf_append realloc_ok io src n in
  len (fst r) = len io + snd r /\ (snd r = n \/ (snd r = 0 /\ fst r = io)).
Proof.
  intros Hok Hn Hsum. unfold iobuf_append.
  assert (Hw : 0 < n -> wrap_int (len io + n) = len io + n).
  { intros Hp. apply wrap_int_small. destruct Hok as (H0 & _).
    unfold INT_MIN; lia. }
  destruct (n <=? 0) eqn:E0; simpl.
  - apply Z.leb_le in E0. split; [lia | left; reflexivity].
  - apply Z.leb_gt in E0. rewrite (Hw E0).
    destruct (len io + n <? size io); simpl.
    + split; [reflexivity | left; reflexivity].
    + destruct (realloc_ok _); simpl.
      * split; [reflexivity | left; reflexivity].
      * split; [lia | right; split; reflexivity].
Qed.

(** A well-formed buffer stays well-formed through [iobuf_append] when the
    new length and the requested capacity are representable. *)
Lemma iobuf_append_ok (realloc_ok : Z -> bool) (io : iobuf)
      (src : list byte) (n : Z) :
  iobuf_ok io -> n <= INT_MAX -> 2 * (len io + n) <= INT_MAX ->
  iobuf_ok (fst (iobuf_append realloc_ok io src n)).
Proof.
  intros Hok Hn Hsum. pose proof Hok as (H0 & H1 & H2 & H3).
  unfold iobuf_append.
  destruct (n <=? 0) eqn:E0; simpl; [exact Hok |].
  apply Z.leb_gt in E0.
  assert (Hw : wrap_int (len io + n) = len io + n).
  { apply wrap_int_small. unfold INT_MIN; lia. }
  rewrite Hw.
  destruct (len io + n <? size io) eqn:E1; simpl.
  - apply Z.ltb_lt in E1. unfold iobuf_ok; simpl.
    rewrite memcpy_length by lia. lia.
  - apply Z.ltb_ge in E1. unfold IOBUF_RESIZE_MULTIPLIER.
    rewrite double_to_int_small by (unfold INT_MIN; lia).
    destruct (realloc_ok _); simpl; [| exact Hok].
    unfold iobuf_ok; simpl.
    assert (Hr : Z.of_nat (length (realloc_bytes (buf io) ((len io + n) * 2)))
                 = (len io + n) * 2) by (apply realloc_bytes_length; lia).
    rewrite memcpy_length by lia. lia.
Qed.

(** C9: a call of [iobuf_append] that returns a positive count leaves the
    length strictly below the capacity.  The growth test is strict: an
    append that would fill the buffer exactly ([len + n = size]) asks the
    allocator for [(len + n) * 2] bytes and, when that is granted, ends with
    that capacity.  The buffer satisfies the function's assertions, the
    count is an [int], and the requested capacity, when one is requested,
    is representable as an [int]. *)
Theorem iobuf_append_leaves_room (realloc_ok : Z -> bool) (io : iobuf)
        (src : list byte) (n : Z) :
  iobuf_ok io -> n <= INT_MAX ->
  (size io <= len io + n -> 2 * (len io + n) <= INT_MAX) ->
  let r := iobuf_append realloc_ok io src n in
  (0 < snd r -> len (fst r) < size (fst r)) /\
  (0 < n -> len io + n = size io ->
   if realloc_ok ((len io + n) * 2)
   then snd r = n /\ len (fst r) = len io + n
        /\ size (fst r) = (len io + n) * 2
   else r = (io, 0)).
Proof.
  intros Hok Hn Hreq. pose proof Hok as (H0 & H1 & H2 & H3).
  unfold iobuf_append.
  destruct (n <=? 0) eqn:E0; simpl.
  - apply Z.leb_le in E0. split; intros; lia.
  - apply Z.leb_gt in E0.
    destruct (wrap_int (len io + n) <? size io) eqn:E1; simpl.
    + apply Z.ltb_lt in E1. split; [intros _; exact E1 |].
      intros _ Hfill. exfalso.
      rewrite wrap_int_small in E1 by (unfold INT_MIN; lia). lia.
    + apply Z.ltb_ge in E1.
      destruct (new_len_exact io n Hok (conj E0 Hn) E1) as [Hw Hle].
      rewrite Hw in *. unfold IOBUF_RESIZE_MULTIPLIER.
      rewrite double_to_int_small by (unfold INT_MIN; lia).
      destruct (realloc_ok ((len io + n) * 2)); simpl.
      * split; [intros _; lia | intros _ _; repeat split].
      * split; [intros; lia | intros _ _; reflexivity].
Qed.

(** An append of two bytes that fills a four-byte buffer exactly. *)
Lemma iobuf_append_leaves_room_witness :
  let r := iobuf_append (fun _ => true) sample_iobuf [Byte.x21; Byte.x21] 2 in
  iobuf_ok sample_iobuf /\
  (0 < snd r -> len (fst r) < size (fst r)) /\
  (0 < 2 -> len sample_iobuf + 2 = size sample_iobuf ->
   snd r = 2 /\ len (fst r) = 4 /\ size (fst r) = 8).
Proof.
  assert (Hok : iobuf_ok sample_iobuf).
  { unfold iobuf_ok, sample_iobuf, INT_MAX; simpl; lia. }
  split; [exact Hok |].
  apply (iobuf_append_leaves_room (fun _ => true) sample_iobuf
                                  [Byte.x21; Byte.x21] 2 Hok).
  - unfold INT_MAX; lia.
  - intros _; unfold sample_iobuf, INT_MAX; simpl; lia.
Defined.

(** A count that is not positive is handed back as it is, with the
    buffer untouched. *)
Lemma iobuf_append_nonpositive (realloc_ok : Z -> bool) (io : iobuf)
      (src : list byte) (n : Z) :
  n <= 0 -> iobuf_append realloc_ok io src n = (io, n).
Proof.
  intros Hn. unfold iobuf_append.
  apply Z.leb_le in Hn. now rewrite Hn.
Qed.

(** C7: for a negative count [iobuf_append] returns the count itself, not
    zero, while the buffer (here the empty one) stays as it was; [ts_send]
    hands the same value on. *)
Theorem iobuf_append_negative_count :
  iobuf_append (fun _ => true) (mk_iobuf [] 0 0) [] (-1)
  = (mk_iobuf [] 0 0, -1) /\
  fst (ts_send calm_os idle_conn [] (-1) world0) = (idle_conn, -1).
Proof. split; reflexivity. Qed.

(** [ts_send] is [iobuf_append] on the send buffer. *)
Lemma ts_send_is_append {U : Type} (OS : os) (conn : ts_connection)
      (src : list byte) (n : Z) (w : world U) :
  let a := iobuf_append (os_realloc OS (w_tick w)) (send_iobuf conn) src n in
  fst (ts_send OS conn src n w) = (set_send_iobuf conn (fst a), snd a).
Proof. reflexivity. Qed.

(** ** Address parser *)

(** C3: the parser accepts the port-only string ["0"], whose port is zero,
    and the empty string, for which no conversion succeeds and the code sets
    the port to zero "to make it invalid". *)
Theorem parse_port_string_accepts_port_zero :
  fst (parse_port_string (cstr "0")) = 1 /\
  scan_vals (sscanf (cstr "0") fmt_port) = [0] /\
  fst (parse_port_string (cstr "")) = 1.
Proof. repeat split. Qed.

(** C10: ["999.0.0.1:80"] is accepted although its first component exceeds
    255; the components are combined by shifting, the excess bits of
    [999 << 24] falling off the 32-bit word. *)
Theorem parse_port_string_no_octet_check :
  exists str a,
    nth 0 (scan_vals (sscanf str fmt_ipv4_port)) 0 = a /\ 255 < a /\
    scan_n (sscanf str fmt_ipv4_port) = Some (Z.of_nat (length str)) /\
    parse_port_string str
    = (1, mk_sa AF_INET (htons 80)
                (htonl (Z.lor (wrap_uint (Z.shiftl a 24)) 1))).
Proof.
  exists (cstr "999.0.0.1:80"), 999.
  split; [reflexivity |]. split; [reflexivity |].
  split; reflexivity.
Qed.

Lemma str_at_end (str : list ascii) :
  str_at str (Z.of_nat (length str)) = zero.
Proof.
  unfold str_at. rewrite Nat2Z.id, app_nth2 by lia.
  now rewrite Nat.sub_diag.
Qed.

(** Whatever the four components are, a fully consumed dotted quad with a
    port of at most 65535 is accepted and the components are combined by
    shifting. *)
Lemma parse_port_string_ipv4 (str : list ascii) (a b c d p : Z) :
  sscanf str fmt_ipv4_port
  = mk_scan 5 [a; b; c; d; p] (Some (Z.of_nat (length str))) ->
  p <= 65535 ->
  parse_port_string str
  = (1, mk_sa AF_INET (htons (to_uint16 p))
              (htonl (Z.lor (Z.lor (Z.lor (wrap_uint (Z.shiftl a 24))
                                          (wrap_uint (Z.shiftl b 16)))
                                   (wrap_uint (Z.shiftl c 8))) d))).
Proof.
  intros Hs Hp. unfold parse_port_string. rewrite Hs; simpl.
  rewrite str_at_end. apply Z.leb_le in Hp. now rewrite Hp.
Qed.

(** The strings of the specification's grammar scenario, but for port
    zero. *)
Example parse_port_string_accepted :
  map (fun s => fst (parse_port_string (cstr s))) ["80"; "127.0.0.1:8080"]%string
  = [1; 1].
Proof. reflexivity. Qed.

Example parse_port_string_rejected :
  map (fun s => fst (parse_port_string (cstr s)))
      ["80x"; ":80"; "1.2.3:80"; "65536"]%string
  = [0; 0; 0; 0].
Proof. reflexivity. Qed.

(** ** Bind and connect *)

(** C4: ["80x"] is rejected by the parser, yet [ts_bind_to] opens a
    listening socket (descriptor 3, still open afterwards), stores it in the
    server and returns port 80. *)
Theorem ts_bind_to_ignores_parse_failure :
  fst (parse_port_string (cstr "80x")) = 0 /\
  ts_bind_to calm_os fresh_server (cstr "80x") world0
  = (80, set_listening_sock fresh_server 3, mk_world 7 0 [3] [] tt).
Proof. split; reflexivity. Qed.

(** C5: when [connect] fails with [ECONNREFUSED], [ts_connect] returns 0 and
    links no connection, but descriptor 3, which it created, stays open;
    when instead the allocation of the record fails, the descriptor is
    closed. *)
Theorem ts_connect_refused_leaves_socket_open :
  ts_connect refusing_os fresh_server (Some (cstr "localhost")) 80 0 0 world0
  = (0, fresh_server, mk_world 5 ECONNREFUSED [3] [] tt) /\
  ts_connect no_memory_os fresh_server (Some (cstr "localhost")) 80 0 0 world0
  = (0, fresh_server, mk_world 7 EINPROGRESS [] [] tt).
Proof. split; reflexivity. Qed.

(** ** Receive and send passes *)

(** C2: a read of five bytes on an established connection emits [TS_RECV]
    twice, and a read that fails with [EAGAIN] and appends nothing still
    emits it once. *)
Theorem read_from_socket_emits_recv_again :
  (let r := read_from_socket hello_os (Some quiet_callback) idle_conn world0 in
   len (recv_iobuf (fst r)) = 5 /\
   event_names (snd r) = [TS_RECV; TS_RECV]) /\
  (let r := read_from_socket calm_os (Some quiet_callback) idle_conn world0 in
   recv_iobuf (fst r) = recv_iobuf idle_conn /\
   event_names (snd r) = [TS_RECV]).
Proof. repeat split. Qed.

Lemma has_flag_flag_on (conn : ts_connection) (f : Z) :
  f <> 0 -> has_flag (flag_on conn f) f = true.
Proof.
  intros Hf. unfold has_flag, flag_on; simpl.
  rewrite Z.land_lor_distr_l, Z.land_diag.
  apply negb_true_iff, Z.eqb_neq. intros H.
  apply Z.lor_eq_0_iff in H. tauto.
Qed.

(** The step of [write_to_socket] between the write and the event. *)
Lemma drained_and_finished_closes (conn : ts_connection) :
  let conn' := if (len (send_iobuf conn) =? 0)
                  && has_flag conn TSF_FINISHED_SENDING_DATA
               then flag_on conn TSF_CLOSE_IMMEDIATELY else conn in
  len (send_iobuf conn') = 0 ->
  has_flag conn' TSF_FINISHED_SENDING_DATA = true ->
  has_flag conn' TSF_CLOSE_IMMEDIATELY = true.
Proof.
  simpl.
  destruct ((len (send_iobuf conn) =? 0)
            && has_flag conn TSF_FINISHED_SENDING_DATA) eqn:E.
  - intros _ _. apply has_flag_flag_on. discriminate.
  - intros Hlen Hfin. apply Z.eqb_eq in Hlen.
    rewrite Hlen, Hfin in E. discriminate.
Qed.

Lemma has_flag_finished_flag_on (conn : ts_connection) :
  has_flag (flag_on conn TSF_CLOSE_IMMEDIATELY) TSF_FINISHED_SENDING_DATA
  = has_flag conn TSF_FINISHED_SENDING_DATA.
Proof.
  unfold has_flag, flag_on; simpl.
  rewrite Z.land_lor_distr_l.
  change (Z.land TSF_CLOSE_IMMEDIATELY TSF_FINISHED_SENDING_DATA) with 0.
  now rewrite Z.lor_0_r.
Qed.

(** The two assignments of [write_to_socket] between [send] and the event,
    for a result [n] classified as [hard]. *)
Lemma write_to_socket_update (conn : ts_connection) (n : Z) (hard : bool) :
  (hard = true -> (0 <? n) = false) ->
  let mid := if hard then flag_on conn TSF_CLOSE_IMMEDIATELY
             else if 0 <? n
                  then set_send_iobuf conn (iobuf_remove (send_iobuf conn) n)
                  else conn in
  let c := if (len (send_iobuf mid) =? 0)
              && has_flag mid TSF_FINISHED_SENDING_DATA
           then flag_on mid TSF_CLOSE_IMMEDIATELY else mid in
  send_iobuf c = (if 0 <? n then iobuf_remove (send_iobuf conn) n
                  else send_iobuf conn) /\
  has_flag c TSF_FINISHED_SENDING_DATA
  = has_flag conn TSF_FINISHED_SENDING_DATA /\
  has_flag c TSF_CLOSE_IMMEDIATELY
  = ((len (send_iobuf c) =? 0) && has_flag conn TSF_FINISHED_SENDING_DATA)
    || hard || has_flag conn TSF_CLOSE_IMMEDIATELY.
Proof.
  intros Hhard mid c.
  assert (Hmid : send_iobuf mid
                 = (if 0 <? n then iobuf_remove (send_iobuf conn) n
                    else send_iobuf conn)
                 /\ has_flag mid TSF_FINISHED_SENDING_DATA
                    = has_flag conn TSF_FINISHED_SENDING_DATA
                 /\ has_flag mid TSF_CLOSE_IMMEDIATELY
                    = hard || has_flag conn TSF_CLOSE_IMMEDIATELY).
  { subst mid. destruct hard; simpl.
    - rewrite (Hhard eq_refl). split; [reflexivity |].
      split; [apply has_flag_finished_flag_on |].
      apply has_flag_flag_on. discriminate.
    - destruct (0 <? n); repeat split. }
  destruct Hmid as (Hbuf & Hfin & Hclose).
  assert (Hc : send_iobuf c = send_iobuf mid).
  { subst c. now destruct (_ && _). }
  split; [now rewrite Hc |].
  rewrite Hc. subst c. rewrite Hfin.
  destruct ((len (send_iobuf mid) =? 0)
            && has_flag conn TSF_FINISHED_SENDING_DATA); simpl.
  - split; [now rewrite has_flag_finished_flag_on |].
    apply has_flag_flag_on. discriminate.
  - split; [exact Hfin | exact Hclose].
Qed.

(** C8: whatever [send] returns, [write_to_socket] ends by emitting exactly
    one [TS_SEND], after the write.  The connection [c] it emits the event
    for is the one it was given, after the write: its send buffer is the
    given one without the [n] bytes [send] took (unchanged when [send] took
    none), its [finished-sending] flag is the given one, and it is marked
    [close-immediately] exactly when its send buffer is empty and
    [finished-sending] was set, or the write was a hard error, or it was
    marked already.  So an empty send buffer and [finished-sending] give
    [close-immediately].  The connection the function leaves is what the
    callback, if there is one, made of [c]. *)
Theorem write_to_socket_closes_when_drained {U : Type} (OS : os)
        (cb : option (ts_callback_t U)) (conn : ts_connection) (w : world U) :
  let sent := os_send OS (w_tick w) (sock conn)
                      (iobuf_data (send_iobuf conn)) in
  let n := fst sent in
  let r := write_to_socket OS cb conn w in
  exists c : ts_connection,
    w_trace (snd r) = w_trace w ++ [(c, TS_SEND, None)] /\
    w_tick (snd r) = S (w_tick w) /\
    send_iobuf c = (if 0 <? n then iobuf_remove (send_iobuf conn) n
                    else send_iobuf conn) /\
    has_flag c TSF_FINISHED_SENDING_DATA
    = has_flag conn TSF_FINISHED_SENDING_DATA /\
    has_flag c TSF_CLOSE_IMMEDIATELY
    = ((len (send_iobuf c) =? 0)
       && has_flag conn TSF_FINISHED_SENDING_DATA)
      || hard_error n (snd sent)
      || has_flag conn TSF_CLOSE_IMMEDIATELY /\
    (len (send_iobuf c) = 0 ->
     has_flag c TSF_FINISHED_SENDING_DATA = true ->
     has_flag c TSF_CLOSE_IMMEDIATELY = true) /\
    fst r = match cb with
            | Some f => snd (fst (f (w_user w) c TS_SEND None))
            | None => c
            end.
Proof.
  unfold write_to_socket, bind, syscall_errno, is_error, get_errno, ret; simpl.
  destruct (os_send OS (w_tick w) (sock conn) (iobuf_data (send_iobuf conn)))
    as [n e].
  simpl.
  assert (Hcls :
    (n =? 0)
    || (n <? 0) && negb ((if n <? 0 then e else w_errno w) =? EINTR)
       && negb ((if n <? 0 then e else w_errno w) =? EINPROGRESS)
       && negb ((if n <? 0 then e else w_errno w) =? EAGAIN)
       && negb ((if n <? 0 then e else w_errno w) =? EWOULDBLOCK)
    = hard_error n e).
  { unfold hard_error. destruct (n <? 0); reflexivity. }
  rewrite Hcls.
  assert (Hhard : hard_error n e = true -> (0 <? n) = false).
  { unfold hard_error. intros H. apply Z.ltb_ge.
    apply orb_true_iff in H. destruct H as [H | H].
    - apply Z.eqb_eq in H. lia.
    - rewrite <- !andb_assoc in H. apply andb_true_iff in H.
      destruct H as [H _]. apply Z.ltb_lt in H. lia. }
  destruct (write_to_socket_update conn n (hard_error n e) Hhard)
    as (Hbuf & Hfin & Hclose).
  set (mid := if hard_error n e then flag_on conn TSF_CLOSE_IMMEDIATELY
              else if 0 <? n
                   then set_send_iobuf conn (iobuf_remove (send_iobuf conn) n)
                   else conn) in *.
  set (c := if (len (send_iobuf mid) =? 0)
               && has_flag mid TSF_FINISHED_SENDING_DATA
            then flag_on mid TSF_CLOSE_IMMEDIATELY else mid) in *.
  exists c.
  assert (Himp : len (send_iobuf c) = 0 ->
                 has_flag c TSF_FINISHED_SENDING_DATA = true ->
                 has_flag c TSF_CLOSE_IMMEDIATELY = true)
    by apply (drained_and_finished_closes mid).
  unfold call_user; simpl.
  destruct cb as [f |]; simpl.
  - destruct (f (w_user w) c TS_SEND None) as [[u c'] st] eqn:Ef; simpl.
    repeat split; try reflexivity; assumption.
  - repeat split; try reflexivity; assumption.
Qed.

(** Without a callback the connection [write_to_socket] returns is the one
    the event was emitted for. *)
Lemma write_to_socket_no_callback {U : Type} (OS : os)
      (conn : ts_connection) (w : world U) :
  let c := fst (write_to_socket OS None conn w) in
  len (send_iobuf c) = 0 ->
  has_flag c TSF_FINISHED_SENDING_DATA = true ->
  doomed c = true.
Proof.
  unfold write_to_socket, bind, syscall_errno, is_error, get_errno, ret; simpl.
  destruct (os_send OS (w_tick w) (sock conn) (iobuf_data (send_iobuf conn)))
    as [n e].
  simpl. unfold call_user; simpl.
  match goal with
  | |- context [has_flag ?m TSF_FINISHED_SENDING_DATA] =>
      apply (drained_and_finished_closes m)
  end.
Qed.

(** ** Poll loop *)

Section PollLoop.

Context {U : Type}.
Variable OS : os.

Implicit Types (cb : option (ts_callback_t U)) (w : world U)
         (conns : list ts_connection) (server : ts_server U).

(** The third loop keeps exactly the connections that are not marked. *)
Lemma poll_reap_survivors cb conns : forall k w,
  fst (fst (poll_reap cb conns k w)) = filter (fun c => negb (doomed c)) conns.
Proof.
  induction conns as [| c rest IH]; intros k w; simpl; [reflexivity |].
  unfold doomed at 1. destruct (has_flag c TSF_CLOSE_IMMEDIATELY); simpl.
  - unfold bind. destruct (close_conn cb c w) as [[] w']. apply IH.
  - unfold bind.
    specialize (IH (wrap_int (k + 1)) w).
    destruct (poll_reap cb rest (wrap_int (k + 1)) w) as [[l n] w'].
    simpl in *. now rewrite IH.
Qed.

(** It counts every connection it visits, closed or not. *)
Lemma poll_reap_counts_visited cb conns : forall k w,
  INT_MIN <= k -> k + Z.of_nat (length conns) <= INT_MAX ->
  snd (fst (poll_reap cb conns k w)) = k + Z.of_nat (length conns).
Proof.
  induction conns as [| c rest IH]; intros k w Hlo Hhi; simpl.
  - lia.
  - simpl length in Hhi. rewrite Nat2Z.inj_succ in *.
    assert (Hw : wrap_int (k + 1) = k + 1) by (apply wrap_int_small; lia).
    destruct (has_flag c TSF_CLOSE_IMMEDIATELY); simpl; unfold bind.
    + destruct (close_conn cb c w) as [[] w'].
      rewrite IH; rewrite Hw; lia.
    + specialize (IH (wrap_int (k + 1)) w).
      destruct (poll_reap cb rest (wrap_int (k + 1)) w) as [[l n] w'].
      simpl in *. rewrite IH; rewrite Hw; lia.
Qed.

Lemma filter_none_doomed conns :
  Forall (fun c => doomed c = false) conns ->
  filter (fun c => negb (doomed c)) conns = conns.
Proof.
  induction 1 as [| c rest Hc _ IH]; simpl; [reflexivity |].
  now rewrite Hc, IH.
Qed.

Lemma filter_not_doomed conns :
  Forall (fun c => doomed c = false) (filter (fun c => negb (doomed c)) conns).
Proof.
  apply Forall_forall. intros c Hin. apply filter_In in Hin.
  destruct Hin as [_ H]. now apply negb_true_iff.
Qed.

(** [ts_server_poll] without a listening socket. *)
Lemma ts_server_poll_unbound server milli w :
  listening_sock server = INVALID_SOCKET ->
  fst (ts_server_poll OS server milli w) = (0, server).
Proof.
  intros H. unfold ts_server_poll, bind, syscall; simpl.
  rewrite H. reflexivity.
Qed.

(** [ts_server_poll] with one: the third loop runs on what the first two
    left. *)
Lemma ts_server_poll_bound server milli w :
  listening_sock server <> INVALID_SOCKET ->
  let (s1, w1) := poll_before_reap OS server milli w in
  fst (ts_server_poll OS server milli w)
  = (snd (fst (poll_reap (callback s1) (active_connections s1) 0 w1)),
     set_active_connections s1
       (fst (fst (poll_reap (callback s1) (active_connections s1) 0 w1)))).
Proof.
  intros H. apply Z.eqb_neq in H.
  unfold ts_server_poll, poll_before_reap, bind, syscall; simpl.
  rewrite H.
  destruct (poll_io OS server milli _ _) as [s1 w1].
  destruct (poll_reap (callback s1) (active_connections s1) 0 w1)
    as [[l n] w2].
  reflexivity.
Qed.

End PollLoop.

Section PollResults.

Context {U : Type}.
Variable OS : os.

Implicit Types (cb : option (ts_callback_t U)) (w : world U)
         (conns : list ts_connection) (server : ts_server U).

Lemma close_conn_trace cb (c : ts_connection) w :
  w_trace (snd (close_conn cb c w)) = w_trace w ++ [(c, TS_CLOSE, None)].
Proof.
  unfold close_conn, bind, call_user, closesocket.
  destruct cb as [f |]; simpl.
  - destruct (f (w_user w) c TS_CLOSE None) as [[u c'] st]. reflexivity.
  - reflexivity.
Qed.

(** The third loop emits [TS_CLOSE] for the marked connections, in list
    order, and nothing else. *)
Lemma poll_reap_trace cb conns : forall k w,
  w_trace (snd (poll_reap cb conns k w))
  = w_trace w ++ map (fun c => (c, TS_CLOSE, None)) (filter doomed conns).
Proof.
  induction conns as [| c rest IH]; intros k w; simpl.
  - now rewrite app_nil_r.
  - unfold doomed at 1. destruct (has_flag c TSF_CLOSE_IMMEDIATELY); simpl.
    + unfold bind. pose proof (close_conn_trace cb c w) as Hc.
      destruct (close_conn cb c w) as [[] w']. simpl in Hc.
      rewrite IH, Hc, <- app_assoc. reflexivity.
    + unfold bind. specialize (IH (wrap_int (k + 1)) w).
      destruct (poll_reap cb rest (wrap_int (k + 1)) w) as [[l n] w'].
      exact IH.
Qed.

(** C1, as the code has it: without a listening socket [ts_server_poll]
    returns 0 and leaves the server as it is; with one, when no connection
    is marked for closing as the third loop starts, it returns the number of
    connections on the active list after the pass. *)
Theorem ts_server_poll_count server (milli : Z) w :
  let r := fst (ts_server_poll OS server milli w) in
  (listening_sock server = INVALID_SOCKET -> r = (0, server)) /\
  (listening_sock server <> INVALID_SOCKET ->
   let s1 := fst (poll_before_reap OS server milli w) in
   Z.of_nat (length (active_connections s1)) <= INT_MAX ->
   Forall (fun c => doomed c = false) (active_connections s1) ->
   fst r = Z.of_nat (length (active_connections (snd r)))).
Proof.
  split.
  - apply ts_server_poll_unbound.
  - intros Hl s1 Hlen Hnone.
    pose proof (ts_server_poll_bound OS server milli w Hl) as Hp.
    subst s1. destruct (poll_before_reap OS server milli w) as [s1 w1].
    simpl in *. rewrite Hp; simpl.
    rewrite poll_reap_survivors, (filter_none_doomed _ Hnone).
    rewrite poll_reap_counts_visited; unfold INT_MIN; lia.
Qed.

(** C6, as the code has it: when [ts_server_poll] is called on a server
    that has a listening socket, no connection on the active list is marked
    for closing when it returns; the list is what the third loop found
    without the marked connections, and each of those received
    [TS_CLOSE]. *)
Theorem ts_server_poll_reaps_doomed server (milli : Z) w :
  listening_sock server <> INVALID_SOCKET ->
  let r := ts_server_poll OS server milli w in
  let before := poll_before_reap OS server milli w in
  Forall (fun c => doomed c = false) (active_connections (snd (fst r))) /\
  active_connections (snd (fst r))
  = filter (fun c => negb (doomed c)) (active_connections (fst before)) /\
  w_trace (snd r)
  = w_trace (snd before)
    ++ map (fun c => (c, TS_CLOSE, None))
           (filter doomed (active_connections (fst before))).
Proof.
  intros Hl r before.
  pose proof (ts_server_poll_bound OS server milli w Hl) as Hp.
  assert (Ht : w_trace (snd r)
               = w_trace (snd (poll_reap (callback (fst before))
                                         (active_connections (fst before))
                                         0 (snd before)))).
  { subst r before. apply Z.eqb_neq in Hl.
    unfold ts_server_poll, poll_before_reap, bind, syscall; simpl.
    rewrite Hl.
    destruct (poll_io OS server milli _ _) as [s1 w1]; simpl.
    destruct (poll_reap (callback s1) (active_connections s1) 0 w1)
      as [[l n] w2].
    reflexivity. }
  subst r before.
  destruct (poll_before_reap OS server milli w) as [s1 w1]. simpl in *.
  rewrite Hp; simpl. rewrite poll_reap_survivors.
  split; [apply filter_not_doomed |].
  split; [reflexivity |].
  rewrite Ht. apply poll_reap_trace.
Qed.

End PollResults.

(** A server without listener, and a listening server whose two
    connections are idle. *)
Lemma ts_server_poll_count_witness :
  fst (ts_server_poll calm_os unbound_server 0 world0) = (0, unbound_server) /\
  (let r := fst (ts_server_poll calm_os bound_server 0 world0) in
   fst r = Z.of_nat (length (active_connections (snd r)))).
Proof.
  split.
  - apply (proj1 (ts_server_poll_count calm_os unbound_server 0 world0)).
    reflexivity.
  - apply (proj2 (ts_server_poll_count calm_os bound_server 0 world0)).
    + discriminate.
    + vm_compute. discriminate.
    + repeat constructor.
Defined.

(** A server without listening socket: [ts_server_poll] returns 0 while a
    connection is on the active list. *)
Lemma ts_server_poll_unbound_returns_zero :
  let r := fst (ts_server_poll calm_os unbound_server 0 world0) in
  fst r <> Z.of_nat (length (active_connections (snd r))).
Proof. vm_compute. discriminate. Qed.

(** The peer of one of two connections has closed: the third loop closes
    that connection and still counts it, so that 2 is returned with one
    connection left on the list. *)
Lemma ts_server_poll_counts_closed_connection :
  let r := fst (ts_server_poll peer_closed_os bound_server 0 world0) in
  fst r = 2 /\ active_connections (snd r) = [other_conn].
Proof. split; reflexivity. Qed.

(** A listening server one of whose two peers has closed. *)
Lemma ts_server_poll_reaps_doomed_witness :
  let r := ts_server_poll peer_closed_os bound_server 0 world0 in
  listening_sock bound_server <> INVALID_SOCKET /\
  Forall (fun c => doomed c = false) (active_connections (snd (fst r))) /\
  active_connections (snd (fst r)) = [other_conn].
Proof.
  assert (Hl : listening_sock bound_server <> INVALID_SOCKET) by discriminate.
  split; [exact Hl |].
  destruct (ts_server_poll_reaps_doomed peer_closed_os bound_server 0 world0 Hl)
    as (Hall & Hlist & _).
  split; [exact Hall | exact Hlist].
Defined.

(** A server without listening socket: the marked connection is still on
    the active list when [ts_server_poll] returns. *)
Lemma ts_server_poll_unbound_keeps_doomed :
  ~ Forall (fun c => doomed c = false)
      (active_connections
         (snd (fst (ts_server_poll calm_os unbound_doomed_server 0 world0)))).
Proof.
  intros H. vm_compute in H. inversion H as [| c l Hc Hl]. discriminate.
Qed.

(** ** The same behaviour in every environment *)

Section EveryEnvironment.

Context {U : Type}.
Variable OS : os.

Implicit Types (cb : option (ts_callback_t U)) (w : world U)
         (conn : ts_connection) (server : ts_server U).

Lemma call_user_event_names cb conn (ev : ts_event) (p : option Z) w :
  event_names (snd (call_user cb conn ev p w)) = event_names w ++ [ev].
Proof.
  unfold call_user, event_names.
  destruct cb as [f |]; simpl.
  - destruct (f (w_user w) conn ev p) as [[u c'] st]; simpl.
    now rewrite map_app.
  - now rewrite map_app.
Qed.

Lemma call_user_payload_event_names cb conn (ev : ts_event) (ok : Z) w :
  event_names (snd (call_user_payload cb conn ev ok w))
  = event_names w ++ [ev].
Proof.
  unfold call_user_payload, event_names.
  destruct cb as [f |]; simpl.
  - destruct (f (w_user w) conn ev (Some ok)) as [[u c'] st]; simpl.
    now rewrite map_app.
  - now rewrite map_app.
Qed.

(** On a connection that is not connecting, [read_from_socket] emits
    [TS_RECV] twice when [recv] returns a positive count and once
    otherwise. *)
Lemma read_from_socket_recv_events cb conn w :
  has_flag conn TSF_CONNECTING = false ->
  let n := fst (fst (os_recv OS (w_tick w) (sock conn) 2048)) in
  event_names (snd (read_from_socket OS cb conn w))
  = event_names w ++ (if 0 <? n then [TS_RECV; TS_RECV] else [TS_RECV]).
Proof.
  intros Hc. unfold read_from_socket. rewrite Hc.
  unfold bind at 1. unfold recv.
  destruct (os_recv OS (w_tick w) (sock conn) 2048) as [[n e] data]; simpl.
  unfold bind at 1. unfold is_error, bind, get_errno, ret; simpl.
  destruct (0 <? n) eqn:Epos.
  - apply Z.ltb_lt in Epos.
    assert (E0 : (n =? 0) = false) by (apply Z.eqb_neq; lia).
    assert (E1 : (n <? 0) = false) by (apply Z.ltb_ge; lia).
    rewrite E0, E1; simpl. unfold iobuf_append_m; simpl.
    match goal with
    | |- context [call_user cb ?c TS_RECV None ?w1] =>
        pose proof (call_user_event_names cb c TS_RECV None w1) as H1;
        destruct (call_user cb c TS_RECV None w1) as [c1 w2]
    end.
    simpl in H1.
    rewrite call_user_event_names, H1, <- app_assoc. reflexivity.
  - destruct ((n =? 0) || _); simpl;
      rewrite call_user_event_names; reflexivity.
Qed.

(** When [connect] reports a hard error, [ts_connect] returns 0 and leaves
    the server as it was, and the descriptor it obtained from [socket] is
    among the open ones afterwards. *)
Lemma ts_connect_hard_error server (h : list ascii) (port param addr : Z) w :
  os_gethostbyname OS (w_tick w) h = Some addr ->
  let s := os_socket OS (S (w_tick w)) in
  s <> INVALID_SOCKET ->
  let c := os_connect OS (S (S (S (S (w_tick w))))) s
                      (mk_sa AF_INET (htons (to_uint16 port)) addr) in
  fst c = 0 \/
  (fst c < 0 /\ snd c <> EINTR /\ snd c <> EINPROGRESS /\ snd c <> EAGAIN) ->
  let r := ts_connect OS server (Some h) port 0 param w in
  fst r = (0, server) /\ In s (w_open (snd r)).
Proof.
  intros Hh s Hs c Herr r. subst r.
  unfold ts_connect, bind, syscall; simpl. rewrite Hh; simpl.
  fold s. apply Z.eqb_neq in Hs. rewrite Hs; simpl.
  unfold syscall_errno; simpl. fold c.
  destruct c as [cr ce]; simpl in *.
  unfold is_error, bind, get_errno, ret; simpl.
  destruct Herr as [H0 | (Hneg & H1 & H2 & H3)].
  - subst cr. simpl. split; [reflexivity | now left].
  - assert (E0 : (cr =? 0) = false) by (apply Z.eqb_neq; lia).
    assert (E1 : (cr <? 0) = true) by (apply Z.ltb_lt; lia).
    rewrite E0, E1; simpl.
    apply Z.eqb_neq in H1, H2, H3.
    unfold EWOULDBLOCK, EAGAIN in *. rewrite H1, H2, H3; simpl.
    split; [reflexivity | now left].
Qed.

(** With a listening socket, the value [ts_server_poll] returns is the
    number of connections the third loop visits. *)
Lemma ts_server_poll_counts_visited server (milli : Z) w :
  listening_sock server <> INVALID_SOCKET ->
  let s1 := fst (poll_before_reap OS server milli w) in
  Z.of_nat (length (active_connections s1)) <= INT_MAX ->
  fst (fst (ts_server_poll OS server milli w))
  = Z.of_nat (length (active_connections s1)).
Proof.
  intros Hl s1 Hlen.
  pose proof (ts_server_poll_bound OS server milli w Hl) as Hp.
  subst s1. destruct (poll_before_reap OS server milli w) as [s1 w1].
  simpl in *. rewrite Hp; simpl.
  rewrite poll_reap_counts_visited; unfold INT_MIN; lia.
Qed.

(** [ts_bind_to] depends on the string only through the address the parser
    wrote, never through the parser's verdict. *)
Lemma ts_bind_to_same_address server (str1 str2 : list ascii) w :
  snd (parse_port_string str1) = snd (parse_port_string str2) ->
  ts_bind_to OS server str1 w = ts_bind_to OS server str2 w.
Proof. intros H. unfold ts_bind_to. now rewrite H. Qed.

End EveryEnvironment.

(** "80" is accepted and "80x" rejected, and both bind the same way. *)
Lemma ts_bind_to_same_address_example (OS : os) :
  fst (parse_port_string (cstr "80")) = 1 /\
  fst (parse_port_string (cstr "80x")) = 0 /\
  ts_bind_to OS fresh_server (cstr "80x") world0
  = ts_bind_to OS fresh_server (cstr "80") world0.
Proof.
  split; [reflexivity |]. split; [reflexivity |].
  apply ts_bind_to_same_address. reflexivity.
Qed.

(** The "finished sending" scenario: the three queued bytes are taken by
    [send], the buffer is empty, and the connection handed to [TS_SEND] is
    marked for closing. *)
Example write_to_socket_bye :
  let r := write_to_socket sending_os (Some quiet_callback) bye_conn world0 in
  len (send_iobuf (fst r)) = 0 /\
  doomed (fst r) = true /\
  event_names (snd r) = [TS_SEND].
Proof. repeat split. Qed.

(* ================================================================== *)
(** * Further properties of the code *)

(** ** Byte buffer: content *)

Lemma read_bytes_firstn (src : list byte) (n : Z) :
  (Z.to_nat n <= length src)%nat ->
  read_bytes src n = firstn (Z.to_nat n) src.
Proof.
  unfold read_bytes. generalize (Z.to_nat n) as m. clear n.
  induction src as [| b src IH]; intros m Hm; simpl in *.
  - assert (m = 0%nat) by lia. subst m. reflexivity.
  - destruct m as [| m]; [reflexivity |].
    simpl. f_equal. rewrite <- seq_shift, map_map. apply IH. lia.
Qed.

Lemma firstn_skipn_swap {A : Type} (l : list A) (n m : nat) :
  firstn m (skipn n l) = skipn n (firstn (n + m) l).
Proof.
  revert l. induction n as [| n IH]; intros l; simpl; [reflexivity |].
  destruct l as [| a l]; simpl.
  - now rewrite firstn_nil.
  - apply IH.
Qed.

Lemma firstn_app_exact {A : Type} (l1 l2 : list A) (n : nat) :
  length l1 = n -> firstn n (l1 ++ l2) = l1.
Proof.
  intros <-. rewrite firstn_app, Nat.sub_diag, firstn_all. simpl.
  now rewrite app_nil_r.
Qed.

(** The bytes a successful [iobuf_remove] leaves, and its bookkeeping. *)
Lemma iobuf_remove_in_range (io : iobuf) (n : Z) :
  iobuf_ok io -> 0 <= n <= len io ->
  iobuf_data (iobuf_remove io n) = skipn (Z.to_nat n) (iobuf_data io) /\
  len (iobuf_remove io n) = len io - n /\
  size (iobuf_remove io n) = size io /\
  iobuf_ok (iobuf_remove io n).
Proof.
  intros (H0 & H1 & H2 & H3) [Hn0 Hn1]. unfold iobuf_remove.
  assert (E : (0 <=? n) && (n <=? len io) = true).
  { apply andb_true_iff. split; apply Z.leb_le; lia. }
  rewrite E. unfold iobuf_data, iobuf_ok; simpl.
  assert (Hw : wrap_int (len io - n) = len io - n).
  { apply wrap_int_small. unfold INT_MIN, INT_MAX in *; lia. }
  rewrite Hw. unfold memmove_down.
  assert (Hrd : read_bytes (skipn (Z.to_nat n) (buf io)) (len io - n)
                = firstn (Z.to_nat (len io - n)) (skipn (Z.to_nat n) (buf io))).
  { apply read_bytes_firstn. rewrite length_skipn. lia. }
  assert (Hlen : length (read_bytes (skipn (Z.to_nat n) (buf io)) (len io - n))
                 = Z.to_nat (len io - n)) by apply read_bytes_length.
  repeat split; try lia.
  - rewrite firstn_app_exact by exact Hlen.
    rewrite Hrd, firstn_skipn_swap. f_equal. f_equal. lia.
  - rewrite length_app, Hlen, length_skipn. lia.
Qed.

(** The bytes a successful [iobuf_append] leaves. *)
Lemma iobuf_append_success (realloc_ok : Z -> bool) (io : iobuf)
      (src : list byte) (n : Z) :
  iobuf_ok io -> 0 < n -> len io + n <= INT_MAX ->
  (size io <= len io + n -> 2 * (len io + n) <= INT_MAX) ->
  snd (iobuf_append realloc_ok io src n) = n ->
  iobuf_data (fst (iobuf_append realloc_ok io src n))
  = iobuf_data io ++ read_bytes src n /\
  len (fst (iobuf_append realloc_ok io src n)) = len io + n /\
  iobuf_ok (fst (iobuf_append realloc_ok io src n)).
Proof.
  intros Hok Hn Hsum Hreq. pose proof Hok as (H0 & H1 & H2 & H3).
  unfold iobuf_append.
  assert (E0 : (n <=? 0) = false) by (apply Z.leb_gt; lia).
  assert (Hw : wrap_int (len io + n) = len io + n).
  { apply wrap_int_small. unfold INT_MIN; lia. }
  rewrite E0, Hw.
  assert (Hfirst : length (firstn (Z.to_nat (len io)) (buf io))
                   = Z.to_nat (len io)) by (rewrite length_firstn; lia).
  assert (Hdata : forall l tl,
             firstn (Z.to_nat (len io)) l = firstn (Z.to_nat (len io)) (buf io) ->
             firstn (Z.to_nat (len io + n))
                    (firstn (Z.to_nat (len io)) l ++ read_bytes src n ++ tl)
             = firstn (Z.to_nat (len io)) (buf io) ++ read_bytes src n).
  { intros l tl Hl. rewrite Hl, app_assoc. apply firstn_app_exact.
    rewrite length_app, Hfirst, read_bytes_length. lia. }
  destruct (len io + n <? size io) eqn:E1; simpl.
  - intros _. apply Z.ltb_lt in E1. unfold iobuf_data, iobuf_ok; simpl.
    split; [apply Hdata; reflexivity |]. split; [reflexivity |].
    rewrite memcpy_length by lia. lia.
  - apply Z.ltb_ge in E1. unfold IOBUF_RESIZE_MULTIPLIER.
    rewrite double_to_int_small by (unfold INT_MIN; lia).
    destruct (realloc_ok _); simpl; [intros _ | intros; lia].
    assert (Hr : Z.of_nat (length (realloc_bytes (buf io) ((len io + n) * 2)))
                 = (len io + n) * 2) by (apply realloc_bytes_length; lia).
    unfold iobuf_data, iobuf_ok; simpl.
    split; [| split; [reflexivity | rewrite memcpy_length by lia; lia]].
    unfold memcpy. apply Hdata. unfold realloc_bytes.
    rewrite (firstn_all2 (n := Z.to_nat ((len io + n) * 2))) by lia.
    rewrite firstn_app.
    replace (Z.to_nat (len io) - length (buf io))%nat with 0%nat by lia.
    simpl. now rewrite app_nil_r.
Qed.

(** X1: [iobuf_remove (io, n)] with [0 <= n <= len] drops exactly the first
    [n] valid bytes: the bytes left are the old ones from position [n] on,
    in order, the length falls by [n] and the capacity stays; with [n]
    outside that range the buffer is left as it is. *)
Theorem iobuf_remove_drops_prefix (io : iobuf) (n : Z) :
  iobuf_ok io ->
  (0 <= n <= len io ->
   iobuf_data (iobuf_remove io n) = skipn (Z.to_nat n) (iobuf_data io) /\
   len (iobuf_remove io n) = len io - n /\
   size (iobuf_remove io n) = size io /\
   iobuf_ok (iobuf_remove io n)) /\
  (n < 0 \/ len io < n -> iobuf_remove io n = io).
Proof.
  intros Hok. split.
  - intros Hn. now apply iobuf_remove_in_range.
  - intros Hout. unfold iobuf_remove.
    assert (E : (0 <=? n) && (n <=? len io) = false).
    { apply andb_false_iff. destruct Hout; [left | right];
        apply Z.leb_gt; lia. }
    now rewrite E.
Qed.

Lemma sample_iobuf_ok : iobuf_ok sample_iobuf.
Proof. unfold iobuf_ok, sample_iobuf, INT_MAX; simpl; lia. Qed.

(** One of the two bytes of the sample buffer is removed. *)
Lemma iobuf_remove_drops_prefix_witness :
  iobuf_data (iobuf_remove sample_iobuf 1) = [Byte.x69] /\
  iobuf_remove sample_iobuf 3 = sample_iobuf.
Proof.
  pose proof (iobuf_remove_drops_prefix sample_iobuf 1 sample_iobuf_ok)
    as [Hin _].
  pose proof (iobuf_remove_drops_prefix sample_iobuf 3 sample_iobuf_ok)
    as [_ Hout].
  split.
  - apply Hin. unfold sample_iobuf; simpl; lia.
  - apply Hout. right. unfold sample_iobuf; simpl; lia.
Defined.

(** X2: when [iobuf_append] accepts a positive count [n] (returns [n]), the
    valid bytes afterwards are the old valid bytes followed by the [n] bytes
    of the source, and the buffer still satisfies the function's
    assertions.  The new length and, where it is requested, the new
    capacity are representable as [int]. *)
Theorem iobuf_append_appends (realloc_ok : Z -> bool) (io : iobuf)
        (src : list byte) (n : Z) :
  iobuf_ok io -> 0 < n -> len io + n <= INT_MAX ->
  (size io <= len io + n -> 2 * (len io + n) <= INT_MAX) ->
  snd (iobuf_append realloc_ok io src n) = n ->
  iobuf_data (fst (iobuf_append realloc_ok io src n))
  = iobuf_data io ++ read_bytes src n /\
  iobuf_ok (fst (iobuf_append realloc_ok io src n)).
Proof.
  intros Hok Hn Hsum Hreq Hk.
  destruct (iobuf_append_success realloc_ok io src n Hok Hn Hsum Hreq Hk)
    as (Hd & _ & Hok').
  split; assumption.
Qed.

(** Two bytes are appended to the sample buffer, which has to grow. *)
Lemma iobuf_append_appends_witness :
  iobuf_data (fst (iobuf_append (fun _ => true) sample_iobuf
                                [Byte.x21; Byte.x3f] 2))
  = [Byte.x68; Byte.x69; Byte.x21; Byte.x3f].
Proof.
  refine (proj1 (iobuf_append_appends (fun _ => true) sample_iobuf
                   [Byte.x21; Byte.x3f] 2 sample_iobuf_ok _ _ _ _)).
  - lia.
  - unfold sample_iobuf, INT_MAX; simpl; lia.
  - intros _; unfold sample_iobuf, INT_MAX; simpl; lia.
  - reflexivity.
Defined.

(** X3: first in, first out.  After [n] bytes were appended to a buffer
    that held [len] bytes, removing [len] bytes leaves exactly the
    appended bytes. *)
Theorem iobuf_append_then_remove (realloc_ok : Z -> bool) (io : iobuf)
        (src : list byte) (n : Z) :
  iobuf_ok io -> 0 < n -> len io + n <= INT_MAX ->
  (size io <= len io + n -> 2 * (len io + n) <= INT_MAX) ->
  snd (iobuf_append realloc_ok io src n) = n ->
  iobuf_data (iobuf_remove (fst (iobuf_append realloc_ok io src n)) (len io))
  = read_bytes src n.
Proof.
  intros Hok Hn Hsum Hreq Hk.
  destruct (iobuf_append_success realloc_ok io src n Hok Hn Hsum Hreq Hk)
    as (Hd & Hl & Hok').
  destruct Hok as (H0 & H1 & H2 & H3).
  destruct (iobuf_remove_in_range _ (len io) Hok') as (Hr & _); [lia |].
  rewrite Hr, Hd. unfold iobuf_data at 1.
  rewrite skipn_app, skipn_all2 by (rewrite length_firstn; lia).
  rewrite length_firstn.
  replace (Z.to_nat (len io) - Nat.min (Z.to_nat (len io)) (length (buf io)))%nat
    with 0%nat by lia.
  reflexivity.
Qed.

(** The two old bytes of the sample buffer are drained after an append. *)
Lemma iobuf_append_then_remove_witness :
  iobuf_data (iobuf_remove (fst (iobuf_append (fun _ => true) sample_iobuf
                                              [Byte.x21; Byte.x3f] 2)) 2)
  = [Byte.x21; Byte.x3f].
Proof.
  refine (iobuf_append_then_remove (fun _ => true) sample_iobuf
            [Byte.x21; Byte.x3f] 2 sample_iobuf_ok _ _ _ _).
  - lia.
  - unfold sample_iobuf, INT_MAX; simpl; lia.
  - intros _; unfold sample_iobuf, INT_MAX; simpl; lia.
  - reflexivity.
Defined.

(** ** Address parser: port-only strings *)

Lemma isdigit_not_space (c : ascii) : isdigit c = true -> isspace c = false.
Proof.
  unfold isdigit, isspace. intros H.
  apply andb_true_iff in H. destruct H as [H1 H2].
  apply Z.leb_le in H1. apply Z.leb_le in H2.
  apply orb_false_iff. split.
  - apply Z.eqb_neq. lia.
  - apply andb_false_iff. right. apply Z.leb_gt. lia.
Qed.

Lemma isdigit_not_sign (c : ascii) :
  isdigit c = true ->
  Ascii.eqb c "-"%char = false /\ Ascii.eqb c "+"%char = false.
Proof.
  intros H. split.
  - destruct (Ascii.eqb c "-") eqn:E; [| reflexivity].
    apply Ascii.eqb_eq in E. subst c. discriminate.
  - destruct (Ascii.eqb c "+") eqn:E; [| reflexivity].
    apply Ascii.eqb_eq in E. subst c. discriminate.
Qed.

Lemma scan_digits_all (s : list ascii) : forall acc,
  forallb isdigit s = true ->
  scan_digits s acc
  = (fold_left (fun a c => a * 10 + (char_code c - 48)) s acc, []).
Proof.
  induction s as [| c s IH]; intros acc H; simpl in *; [reflexivity |].
  apply andb_true_iff in H. destruct H as [Hc Hs].
  rewrite Hc. now apply IH.
Qed.

Lemma scan_uint_digits (s : list ascii) :
  s <> [] -> forallb isdigit s = true ->
  scan_uint s = Some (strtoul_value false (decimal_value s), []).
Proof.
  intros Hne Hall. destruct s as [| c s]; [contradiction |].
  pose proof Hall as Hall'. simpl in Hall'.
  apply andb_true_iff in Hall'. destruct Hall' as [Hc _].
  unfold scan_uint. simpl skip_space.
  rewrite (isdigit_not_space c Hc).
  destruct (isdigit_not_sign c Hc) as [Hm Hp]. rewrite Hm, Hp, Hc.
  rewrite (scan_digits_all (c :: s) 0 Hall). reflexivity.
Qed.

(** X4: on a string that consists of decimal digits only, the parser takes
    the port-only form: the address is the IPv4 wildcard, the port is the
    number read, and the verdict is 1 exactly when that number, as stored
    in the [unsigned int], is at most 65535.  Below [2^32] the stored number
    is the one written. *)
Theorem parse_port_string_digits (s : list ascii) :
  s <> [] -> forallb isdigit s = true ->
  let p := strtoul_value false (decimal_value s) in
  parse_port_string s
  = (if p <=? 65535 then 1 else 0, mk_sa AF_INET (htons (to_uint16 p)) 0) /\
  (0 <= decimal_value s < 4294967296 -> p = decimal_value s).
Proof.
  intros Hne Hall p. split.
  - unfold parse_port_string, sscanf, fmt_ipv4_port, fmt_port.
    simpl sscanf_from. rewrite (scan_uint_digits s Hne Hall). fold p.
    simpl. rewrite Nat.sub_0_r, str_at_end.
    destruct (p <=? 65535); reflexivity.
  - intros Hv. subst p. unfold strtoul_value, ULONG_MAX, wrap_uint.
    assert (E : (18446744073709551615 <? decimal_value s) = false)
      by (apply Z.ltb_ge; lia).
    rewrite E. apply Z.mod_small. lia.
Qed.

(** The port-only string "8080". *)
Lemma parse_port_string_digits_witness :
  parse_port_string (cstr "8080") = (1, mk_sa AF_INET (htons 8080) 0).
Proof.
  refine (proj1 (parse_port_string_digits (cstr "8080") _ _)).
  - discriminate.
  - reflexivity.
Defined.

(** ** Events of the poll loop *)

Section Emission.

Context {U : Type}.
Variable OS : os.

Implicit Types (cb : option (ts_callback_t U)) (w : world U)
         (conn : ts_connection) (conns : list ts_connection)
         (server : ts_server U) (l : list ts_event).

Lemma emits_ret {A : Type} (a : A) :
  emits (U := U) (ret a) (fun x l => x = a /\ l = []).
Proof. intros w. exists []. simpl. now rewrite app_nil_r. Qed.

Lemma emits_bind {A B : Type} (m : M U A) (k : A -> M U B)
      (Q1 : A -> list ts_event -> Prop)
      (Q2 : A -> B -> list ts_event -> Prop) :
  emits m Q1 -> (forall a, emits (k a) (Q2 a)) ->
  emits (bind m k)
        (fun b l => exists a l1 l2, l = l1 ++ l2 /\ Q1 a l1 /\ Q2 a b l2).
Proof.
  intros Hm Hk w. unfold bind.
  destruct (Hm w) as (l1 & E1 & H1).
  destruct (m w) as [a w1]. simpl in *.
  destruct (Hk a w1) as (l2 & E2 & H2).
  exists (l1 ++ l2). split.
  - now rewrite E2, E1, app_assoc.
  - now exists a, l1, l2.
Qed.

Lemma emits_weaken {A : Type} (m : M U A)
      (Q Q' : A -> list ts_event -> Prop) :
  emits m Q -> (forall a l, Q a l -> Q' a l) -> emits m Q'.
Proof.
  intros Hm Himp w. destruct (Hm w) as (l & E & H).
  exists l. split; [exact E | now apply Himp].
Qed.

(** A computation that leaves the trace alone emits nothing. *)
Lemma emits_silent {A : Type} (m : M U A) :
  (forall w, w_trace (snd (m w)) = w_trace w) ->
  emits m (fun _ l => l = []).
Proof.
  intros H w. exists []. unfold event_names.
  rewrite H, app_nil_r. now split.
Qed.

Lemma emits_call_user cb conn (ev : ts_event) (p : option Z) :
  emits (call_user cb conn ev p) (fun _ l => l = [ev]).
Proof.
  intros w. exists [ev]. split; [apply call_user_event_names | reflexivity].
Qed.

Lemma emits_close_conn cb conn :
  emits (close_conn cb conn) (fun _ l => l = [TS_CLOSE]).
Proof.
  intros w. exists [TS_CLOSE]. split; [| reflexivity].
  unfold event_names. rewrite close_conn_trace, map_app. reflexivity.
Qed.

Lemma emits_syscall {A : Type} (f : nat -> A) :
  emits (U := U) (syscall f) (fun _ l => l = []).
Proof. apply emits_silent. reflexivity. Qed.

Lemma emits_is_error (n : Z) :
  emits (U := U) (is_error n) (fun _ l => l = []).
Proof. apply emits_silent. reflexivity. Qed.

(** [write_to_socket] emits [TS_SEND] and nothing else. *)
Lemma emits_write_to_socket cb conn :
  emits (write_to_socket OS cb conn) (fun _ l => l = [TS_SEND]).
Proof.
  intros w. exists [TS_SEND]. split; [| reflexivity].
  unfold write_to_socket, bind, syscall_errno, is_error, get_errno, ret; simpl.
  destruct (os_send OS (w_tick w) (sock conn) (iobuf_data (send_iobuf conn)))
    as [n e]; simpl.
  rewrite call_user_event_names. reflexivity.
Qed.

(** [read_from_socket] emits [TS_CONNECT] or [TS_RECV] events only. *)
Lemma emits_read_from_socket cb conn :
  emits (read_from_socket OS cb conn) (fun _ l => Forall io_event l).
Proof.
  intros w. destruct (has_flag conn TSF_CONNECTING) eqn:Ec.
  - exists [TS_CONNECT]. split; [| repeat constructor; left; reflexivity].
    unfold read_from_socket. rewrite Ec.
    unfold bind, syscall, ret; simpl.
    match goal with
    | |- context [call_user_payload cb ?c TS_CONNECT ?p ?w1] =>
        pose proof (call_user_payload_event_names cb c TS_CONNECT p w1) as H;
        destruct (call_user_payload cb c TS_CONNECT p w1) as [[c1 ok] w2]
    end.
    exact H.
  - pose proof (read_from_socket_recv_events OS cb conn w Ec) as H.
    simpl in H. eexists. split; [exact H |].
    destruct (0 <? _); repeat constructor; right; left; reflexivity.
Qed.

(** [accept_conn] either links one connection and emits [TS_ACCEPT], or
    leaves the server alone and emits nothing. *)
Lemma emits_accept_conn server :
  emits (accept_conn OS server)
        (fun a l =>
           (fst a = true /\ l = [TS_ACCEPT]
            /\ exists c, snd a = ADD_CONNECTION server c)
           \/ (fst a = false /\ l = [] /\ snd a = server)).
Proof.
  intros w. unfold accept_conn, bind, syscall, opened; simpl.
  destruct (os_accept OS (w_tick w) (listening_sock server) =? INVALID_SOCKET).
  - exists []. simpl. rewrite app_nil_r. split; [reflexivity |].
    right. repeat split.
  - simpl. destruct (os_malloc OS (S (w_tick w))); simpl.
    + exists [TS_ACCEPT].
      unfold set_close_on_exec, set_non_blocking_mode, bind, syscall, ret;
        simpl.
      match goal with
      | |- context [call_user ?k ?c TS_ACCEPT ?p ?w1] =>
          pose proof (call_user_event_names k c TS_ACCEPT p w1) as H;
          destruct (call_user k c TS_ACCEPT p w1) as [c1 w2]
      end.
      simpl in *. split; [exact H |].
      left. repeat split. now exists c1.
    + exists []. simpl. rewrite app_nil_r. split; [reflexivity |].
      right. repeat split.
Qed.

End Emission.

Section Passes.

Context {U : Type}.
Variable OS : os.

Implicit Types (cb : option (ts_callback_t U)) (w : world U)
         (conn : ts_connection) (conns : list ts_connection)
         (server : ts_server U) (l : list ts_event).

Lemma count_event_app (e : ts_event) l1 l2 :
  count_event e (l1 ++ l2) = (count_event e l1 + count_event e l2)%nat.
Proof. unfold count_event. now rewrite filter_app, length_app. Qed.

Lemma count_event_none (e : ts_event) (P : ts_event -> Prop) l :
  Forall P l -> (forall e', P e' -> ts_event_eqb e e' = false) ->
  count_event e l = 0%nat.
Proof.
  intros Hall Hp. unfold count_event.
  induction Hall as [| e' l He _ IH]; simpl; [reflexivity |].
  now rewrite (Hp e' He).
Qed.

Lemma sweep_not (e : ts_event) :
  e <> TS_POLL -> e <> TS_CLOSE ->
  forall e', sweep_event e' -> ts_event_eqb e e' = false.
Proof. intros H1 H2 e' [-> | ->]; destruct e; try reflexivity; congruence. Qed.

Lemma io_not (e : ts_event) :
  e <> TS_CONNECT -> e <> TS_RECV -> e <> TS_SEND ->
  forall e', io_event e' -> ts_event_eqb e e' = false.
Proof.
  intros H1 H2 H3 e' [-> | [-> | ->]]; destruct e;
    try reflexivity; congruence.
Qed.

(** Sequencing two computations whose events all satisfy [P]. *)
Lemma emits_all_bind {A B : Type} (P : ts_event -> Prop)
      (m : M U A) (k : A -> M U B) (R : B -> Prop) :
  emits m (fun _ l => Forall P l) ->
  (forall a, emits (k a) (fun b l => Forall P l /\ R b)) ->
  emits (bind m k) (fun b l => Forall P l /\ R b).
Proof.
  intros Hm Hk.
  apply (emits_weaken _ _ _ (emits_bind m k _ _ Hm Hk)).
  intros b l (a & l1 & l2 & -> & H1 & H2 & Hr).
  split; [apply Forall_app; now split | exact Hr].
Qed.

Lemma emits_ret_all {A : Type} (P : ts_event -> Prop) (R : A -> Prop) (a : A) :
  R a -> emits (U := U) (ret a) (fun b l => Forall P l /\ R b).
Proof.
  intros Hr w. exists []. simpl. rewrite app_nil_r.
  split; [reflexivity | split; [constructor | exact Hr]].
Qed.

(** Sequencing, with the property of the whole stated on the
    continuation. *)
Lemma emits_bind_to {A B : Type} (m : M U A) (k : A -> M U B)
      (Q1 : A -> list ts_event -> Prop) (Q : B -> list ts_event -> Prop) :
  emits m Q1 ->
  (forall a, emits (k a) (fun b l2 => forall l1, Q1 a l1 -> Q b (l1 ++ l2))) ->
  emits (bind m k) Q.
Proof.
  intros Hm Hk.
  apply (emits_weaken _ _ _ (emits_bind m k _ _ Hm Hk)).
  intros b l (a & l1 & l2 & -> & H1 & H2). now apply H2.
Qed.

Lemma emits_ret_to {A : Type} (a : A) (Q : A -> list ts_event -> Prop) :
  Q a [] -> emits (U := U) (ret a) Q.
Proof.
  intros H. apply (emits_weaken _ _ _ (emits_ret a)).
  now intros b l [-> ->].
Qed.

(** The first loop emits [TS_POLL] once for every connection, [TS_CLOSE]
    once for every connection it drops, and nothing else. *)
Lemma emits_poll_prepare cb conns : forall (i : interest),
  emits (poll_prepare cb conns i)
        (fun r l => sweep_summary (length conns) (fst r) l).
Proof.
  induction conns as [| c rest IH]; intros i; simpl.
  - apply emits_ret_to. repeat split. constructor.
  - apply (emits_bind_to _ _ _ _ (emits_call_user cb c TS_POLL None)).
    intros c1.
    assert (Hkeep : forall j,
      emits (bind (poll_prepare cb rest j)
                  (fun r => ret (c1 :: fst r, snd r)))
            (fun b l2 => forall l1, l1 = [TS_POLL] ->
               sweep_summary (S (length rest)) (fst b) (l1 ++ l2))).
    { intros j. apply (emits_bind_to _ _ _ _ (IH j)). intros r.
      apply emits_ret_to. intros l (Hall & Hp & Hl) l1 ->.
      rewrite app_nil_r. simpl. repeat split.
      - constructor; [now left | exact Hall].
      - unfold count_event in *; simpl; lia.
      - unfold count_event in *; simpl; lia. }
    destruct ((0 <? len (send_iobuf c1))
              && negb (has_flag c1 TSF_BUFFER_BUT_DONT_SEND));
      [apply Hkeep |].
    destruct (has_flag c1 TSF_CLOSE_IMMEDIATELY); [| apply Hkeep].
    apply (emits_bind_to _ _ _ _ (emits_close_conn cb c1)). intros [].
    apply (emits_weaken _ _ _ (IH _)).
    intros r l (Hall & Hp & Hl) l2 -> l1 ->. simpl. repeat split.
    + constructor; [now left |]. constructor; [now right | exact Hall].
    + unfold count_event in *; simpl; lia.
    + unfold count_event in *; simpl; lia.
Qed.

(** The second loop keeps every connection and emits I/O events only. *)
Lemma emits_poll_service cb (rset wset : fd_set) (now : Z) conns :
  emits (poll_service OS cb rset wset now conns)
        (fun r l => Forall io_event l /\ length r = length conns).
Proof.
  induction conns as [| c rest IH]; simpl.
  - apply emits_ret_all. reflexivity.
  - apply emits_all_bind.
    { destruct (FD_ISSET (sock c) rset).
      - apply emits_read_from_socket.
      - apply (emits_weaken _ _ _ (emits_ret c)).
        intros a l [_ ->]. constructor. }
    intros c1. apply emits_all_bind.
    { destruct (FD_ISSET (sock c1) wset).
      - destruct (has_flag c1 TSF_CONNECTING).
        + apply emits_read_from_socket.
        + destruct (negb (has_flag c1 TSF_BUFFER_BUT_DONT_SEND)).
          * apply (emits_weaken _ _ _ (emits_write_to_socket OS cb _)).
            intros a l ->.
            constructor; [right; right; reflexivity | constructor].
          * apply (emits_weaken _ _ _ (emits_ret c1)).
            intros a l [_ ->]. constructor.
      - apply (emits_weaken _ _ _ (emits_ret c1)).
        intros a l [_ ->]. constructor. }
    intros c2.
    apply (emits_weaken _ _ _
             (emits_bind _ _ _ _ IH (fun r => emits_ret (c2 :: r)))).
    intros b l (r & l1 & l2 & -> & [Hall Hlen] & -> & ->).
    rewrite app_nil_r. split; [exact Hall | simpl; now rewrite Hlen].
Qed.

(** The third loop emits one [TS_CLOSE] for every connection it drops. *)
Lemma emits_poll_reap cb conns (k : Z) :
  emits (poll_reap cb conns k)
        (fun r l => Forall (fun e => e = TS_CLOSE) l /\
                    (length (fst r) + length l = length conns)%nat).
Proof.
  intros w. exists (repeat TS_CLOSE (length (filter doomed conns))). split.
  - unfold event_names. rewrite poll_reap_trace, map_app, map_map. simpl.
    f_equal. induction (filter doomed conns); simpl; [reflexivity |].
    now f_equal.
  - split.
    + apply Forall_forall. intros e He. now apply repeat_spec in He.
    + rewrite poll_reap_survivors, repeat_length.
      rewrite Nat.add_comm. apply filter_length.
Qed.

(** The loop of [ts_server_free] closes every connection. *)
Lemma emits_close_all cb conns :
  emits (close_all cb conns)
        (fun _ l => l = repeat TS_CLOSE (length conns)).
Proof.
  induction conns as [| c rest IH]; simpl.
  - apply (emits_weaken _ _ _ (emits_ret tt)). now intros a l [_ ->].
  - apply (emits_weaken _ _ _
             (emits_bind _ _ _ _ (emits_close_conn cb c) (fun _ => IH))).
    intros b l (a & l1 & l2 & -> & -> & ->). reflexivity.
Qed.

End Passes.

Section WholePass.

Context {U : Type}.
Variable OS : os.

Implicit Types (cb : option (ts_callback_t U)) (w : world U)
         (conn : ts_connection) (conns : list ts_connection)
         (server : ts_server U) (l : list ts_event).

Lemma late_not (e : ts_event) :
  e <> TS_ACCEPT -> e <> TS_CONNECT -> e <> TS_RECV -> e <> TS_SEND ->
  forall e', late_event e' -> ts_event_eqb e e' = false.
Proof.
  intros H0 H1 H2 H3 e' [-> | [-> | [-> | ->]]]; destruct e;
    try reflexivity; congruence.
Qed.

Lemma io_is_late l : Forall io_event l -> Forall late_event l.
Proof. apply Forall_impl. intros e H. now right. Qed.

(** The accept step of the second loop. *)
Lemma emits_accept_step server (rset : fd_set) (now : Z) :
  emits (if FD_ISSET (listening_sock server) rset
         then bind (accept_conn OS server)
                (fun a =>
                   ret (if fst a
                        then set_active_connections (snd a)
                               (with_head_time (active_connections (snd a))
                                               now)
                        else snd a))
         else ret server)
        (fun s2 l =>
           same_frame server s2 /\
           ((l = [TS_ACCEPT] /\
             length (active_connections s2)
             = S (length (active_connections server)))
            \/ (l = [] /\
                length (active_connections s2)
                = length (active_connections server)))).
Proof.
  destruct (FD_ISSET (listening_sock server) rset).
  - apply (emits_bind_to _ _ _ _ (emits_accept_conn OS server)).
    intros [ok s']. apply emits_ret_to.
    intros l1 [(Ht & -> & c & Hs) | (Hf & -> & Hs)]; simpl in *; subst.
    + split; [repeat split |]. left. split; [reflexivity |].
      reflexivity.
    + split; [repeat split |]. right. now split.
  - apply emits_ret_to. split; [repeat split |]. right. now split.
Qed.

(** The first two loops of a pass. *)
Lemma emits_poll_io server (milli now : Z) :
  emits (poll_io OS server milli now)
        (fun s1 l =>
           same_frame server s1 /\
           io_summary (length (active_connections server)) s1 l).
Proof.
  unfold poll_io.
  apply (emits_bind_to _ _ _ _
           (emits_poll_prepare (callback server)
                               (active_connections server) _)).
  intros [r i]. simpl fst. simpl snd.
  apply (emits_bind_to _ _ _ _ (emits_syscall _)).
  intros [[sr rready] wready].
  destruct (0 <? sr).
  - apply (emits_bind_to _ _ _ _ (emits_accept_step _ _ now)).
    intros s2.
    apply (emits_bind_to _ _ _ _ (emits_poll_service OS _ _ _ now _)).
    intros conns. apply emits_ret_to.
    intros lio [Hio Hlen] la [(Hl & Hc & Hd) Hacc] ls -> lp (Hall & Hp & Hk).
    simpl in *. rewrite app_nil_r.
    split; [repeat split; assumption |].
    exists lp, (la ++ lio). split; [reflexivity |].
    split; [exact Hall |]. split; [exact Hp |].
    assert (Hio0 : count_event TS_ACCEPT lio = 0%nat).
    { apply (count_event_none _ _ _ Hio). apply io_not; discriminate. }
    rewrite count_event_app, Hio0.
    destruct Hacc as [[-> Hn] | [-> Hn]]; simpl.
    + split; [constructor; [now left | now apply io_is_late] |].
      unfold count_event in *; simpl; split; lia.
    + split; [now apply io_is_late |].
      unfold count_event in *; simpl; split; lia.
  - apply emits_ret_to.
    intros ls -> lp (Hall & Hp & Hk). simpl in *. rewrite app_nil_r.
    split; [repeat split |].
    exists lp, []. rewrite app_nil_r. split; [reflexivity |].
    split; [exact Hall |]. split; [exact Hp |].
    split; [constructor |]. unfold count_event in *; simpl; split; lia.
Qed.

End WholePass.

Section PassTheorems.

Context {U : Type}.
Variable OS : os.

Implicit Types (cb : option (ts_callback_t U)) (w : world U)
         (conn : ts_connection) (conns : list ts_connection)
         (server : ts_server U) (l : list ts_event).

Lemma count_event_all (e : ts_event) l :
  Forall (fun e' => e' = e) l -> count_event e l = length l.
Proof.
  unfold count_event. induction 1 as [| e' l -> _ IH]; simpl.
  - reflexivity.
  - destruct e; simpl; now rewrite IH.
Qed.

Lemma close_only_not (e : ts_event) :
  e <> TS_CLOSE ->
  forall e', e' = TS_CLOSE -> ts_event_eqb e e' = false.
Proof. intros H e' ->. destruct e; try reflexivity; congruence. Qed.

(** A whole pass on a server that has a listening socket. *)
Lemma emits_ts_server_poll_bound server (milli : Z) :
  listening_sock server <> INVALID_SOCKET ->
  emits (ts_server_poll OS server milli)
        (fun r l =>
           same_frame server (snd r) /\
           pass_events (length (active_connections server))
                       (length (active_connections (snd r))) l).
Proof.
  intros Hl. apply Z.eqb_neq in Hl. unfold ts_server_poll.
  apply (emits_bind_to _ _ _ _ (emits_syscall _)). intros now.
  rewrite Hl.
  apply (emits_bind_to _ _ _ _ (emits_poll_io OS server milli now)).
  intros s1.
  apply (emits_bind_to _ _ _ _ (emits_poll_reap (callback s1) _ 0)).
  intros r. apply emits_ret_to.
  intros lr [Hclose Hlen] lio [Hframe Hsum] ls ->.
  destruct Hsum as (l1 & l2 & -> & Hall & Hp & Hlate & Hacc & Hcons).
  simpl. rewrite app_nil_r. split; [exact Hframe |].
  exists l1, (l2 ++ lr).
  assert (Hp2 : count_event TS_POLL l2 = 0%nat).
  { apply (count_event_none _ _ _ Hlate). apply late_not; discriminate. }
  assert (Hc2 : count_event TS_CLOSE l2 = 0%nat).
  { apply (count_event_none _ _ _ Hlate). apply late_not; discriminate. }
  assert (Hpr : count_event TS_POLL lr = 0%nat).
  { apply (count_event_none _ _ _ Hclose). apply close_only_not.
    discriminate. }
  assert (Har : count_event TS_ACCEPT lr = 0%nat).
  { apply (count_event_none _ _ _ Hclose). apply close_only_not.
    discriminate. }
  assert (Ha1 : count_event TS_ACCEPT l1 = 0%nat).
  { apply (count_event_none _ _ _ Hall). apply sweep_not; discriminate. }
  pose proof (count_event_all TS_CLOSE lr Hclose) as Hcr.
  split; [now rewrite <- app_assoc |].
  split; [exact Hall |]. split; [exact Hp |].
  rewrite !count_event_app. repeat split; lia.
Qed.

(** A whole pass, with or without listening socket. *)
Lemma emits_ts_server_poll server (milli : Z) :
  emits (ts_server_poll OS server milli)
        (fun r l =>
           same_frame server (snd r) /\
           (count_event TS_ACCEPT l <= 1)%nat /\
           (length (active_connections (snd r)) + count_event TS_CLOSE l
            = length (active_connections server) + count_event TS_ACCEPT l)%nat).
Proof.
  destruct (Z.eq_dec (listening_sock server) INVALID_SOCKET) as [He | Hn].
  - unfold ts_server_poll.
    apply (emits_bind_to _ _ _ _ (emits_syscall _)). intros now.
    apply Z.eqb_eq in He. rewrite He. apply emits_ret_to.
    intros ls ->. simpl. repeat split; unfold count_event; simpl; lia.
  - apply (emits_weaken _ _ _ (emits_ts_server_poll_bound server milli Hn)).
    intros r l [Hf (l1 & l2 & _ & _ & _ & _ & Ha & Hc)].
    repeat split; try apply Hf; assumption.
Qed.

(** X5: in one call of [ts_server_poll] on a server that has a listening
    socket, the events form two stretches: first [TS_POLL], once for each
    connection that was on the list, mixed only with the [TS_CLOSE] of
    connections dropped before [select]; then the rest of the pass, in
    which no [TS_POLL] occurs. *)
Theorem ts_server_poll_polls_first server (milli : Z) w :
  listening_sock server <> INVALID_SOCKET ->
  exists l1 l2,
    event_names (snd (ts_server_poll OS server milli w))
    = event_names w ++ l1 ++ l2 /\
    Forall sweep_event l1 /\
    count_event TS_POLL l1 = length (active_connections server) /\
    count_event TS_POLL l2 = 0%nat.
Proof.
  intros Hl.
  destruct (emits_ts_server_poll_bound server milli Hl w)
    as (l & E & _ & l1 & l2 & -> & Hall & Hp & Hp2 & _).
  now exists l1, l2.
Qed.

(** X6: a call of [ts_server_poll] emits at most one [TS_ACCEPT], and the
    connections are accounted for: those on the list afterwards plus the
    [TS_CLOSE] events are those on the list before plus the [TS_ACCEPT]
    events.  Every connection that leaves the list in the call has
    received [TS_CLOSE], and the list grows by at most one. *)
Theorem ts_server_poll_accounts server (milli : Z) w :
  let r := ts_server_poll OS server milli w in
  exists l,
    event_names (snd r) = event_names w ++ l /\
    (count_event TS_ACCEPT l <= 1)%nat /\
    (length (active_connections (snd (fst r))) + count_event TS_CLOSE l
     = length (active_connections server) + count_event TS_ACCEPT l)%nat.
Proof.
  destruct (emits_ts_server_poll server milli w) as (l & E & _ & Ha & Hc).
  now exists l.
Qed.

Lemma ts_server_poll_frame_aux server w :
  listening_sock (snd (fst (ts_server_poll OS server 0 w)))
  = listening_sock server.
Proof.
  destruct (emits_ts_server_poll server 0 w) as (l & _ & Hf & _).
  apply Hf.
Qed.

(** X7: [ts_server_poll] changes nothing of the server but its list of
    connections: the listening socket, the callback and the user data are
    those it was called with. *)
Theorem ts_server_poll_frame server (milli : Z) w :
  same_frame server (snd (fst (ts_server_poll OS server milli w))).
Proof.
  destruct (emits_ts_server_poll server milli w) as (l & _ & Hf & _).
  exact Hf.
Qed.

End PassTheorems.

(** One of the two peers of a listening server has closed. *)
Lemma ts_server_poll_polls_first_witness :
  exists l1 l2,
    event_names (snd (ts_server_poll peer_closed_os bound_server 0 world0))
    = event_names world0 ++ l1 ++ l2 /\
    Forall sweep_event l1 /\
    count_event TS_POLL l1 = 2%nat /\
    count_event TS_POLL l2 = 0%nat.
Proof.
  apply (ts_server_poll_polls_first peer_closed_os bound_server 0 world0).
  discriminate.
Defined.

Section FreeAndQuiet.

Context {U : Type}.
Variable OS : os.

Implicit Types (cb : option (ts_callback_t U)) (w : world U)
         (conn : ts_connection) (conns : list ts_connection)
         (server : ts_server U) (l : list ts_event).

Lemma emits_closesocket (s : Z) :
  emits (U := U) (closesocket s) (fun _ l => l = []).
Proof. apply emits_silent. reflexivity. Qed.

Lemma count_event_repeat (e : ts_event) (n : nat) :
  count_event e (repeat e n) = n.
Proof.
  rewrite count_event_all, repeat_length; [reflexivity |].
  apply Forall_forall. intros e' H. now apply repeat_spec in H.
Qed.

Lemma count_event_repeat_other (e e' : ts_event) (n : nat) :
  ts_event_eqb e e' = false -> count_event e (repeat e' n) = 0%nat.
Proof.
  intros H. unfold count_event.
  induction n as [| n IH]; simpl; [reflexivity | now rewrite H].
Qed.

Lemma emits_ts_server_free server :
  emits (ts_server_free OS server)
        (fun s' l =>
           active_connections s' = [] /\ same_frame server s' /\
           count_event TS_CLOSE l
           = (length (active_connections server)
              + count_event TS_ACCEPT l)%nat).
Proof.
  unfold ts_server_free.
  apply (emits_bind_to _ _ _ _ (emits_ts_server_poll OS server 0)).
  intros r.
  apply (emits_bind_to _ _ (fun _ l => l = [])).
  { destruct (negb _); [apply emits_closesocket |].
    apply emits_ret_to. reflexivity. }
  intros [].
  apply (emits_bind_to _ _ _ _ (emits_close_all _ _)). intros [].
  apply emits_ret_to.
  intros lc -> ls -> lp (Hf & Ha & Hc). simpl. rewrite app_nil_r.
  split; [reflexivity |]. split; [exact Hf |].
  rewrite !count_event_app, count_event_repeat.
  rewrite (count_event_repeat_other TS_ACCEPT TS_CLOSE) by reflexivity.
  lia.
Qed.

Lemma close_conn_open cb conn w (x : Z) :
  In x (w_open (snd (close_conn cb conn w))) -> In x (w_open w).
Proof.
  unfold close_conn, bind, call_user, closesocket.
  destruct cb as [f |]; simpl.
  - destruct (f (w_user w) conn TS_CLOSE None) as [[u c'] st]; simpl.
    intros H. now apply filter_In in H.
  - intros H. now apply filter_In in H.
Qed.

Lemma close_all_open cb conns (x : Z) : forall w,
  In x (w_open (snd (close_all cb conns w))) -> In x (w_open w).
Proof.
  induction conns as [| c rest IH]; intros w; simpl; [trivial |].
  unfold bind. pose proof (close_conn_open cb c w x) as Hc.
  destruct (close_conn cb c w) as [[] w1]. simpl in Hc.
  intros H. apply Hc. now apply IH.
Qed.

(** X8: [ts_server_free] leaves no connection on the list, and every
    connection that was on the list, or was accepted by the pass it makes
    first, has received [TS_CLOSE]: the [TS_CLOSE] events are as many as
    the connections at the start and the [TS_ACCEPT] events together.  The
    listening socket, if there was one, is closed. *)
Theorem ts_server_free_closes_all server w :
  let r := ts_server_free OS server w in
  active_connections (fst r) = [] /\
  (exists l,
      event_names (snd r) = event_names w ++ l /\
      count_event TS_CLOSE l
      = (length (active_connections server) + count_event TS_ACCEPT l)%nat) /\
  (listening_sock server <> INVALID_SOCKET ->
   ~ In (listening_sock server) (w_open (snd r))).
Proof.
  destruct (emits_ts_server_free server w) as (l & E & Hnil & _ & Hc).
  split; [exact Hnil |]. split; [now exists l |].
  intros Hl Hin.
  pose proof (ts_server_poll_frame_aux OS server w) as Hfr.
  revert Hin. unfold ts_server_free, bind.
  destruct (ts_server_poll OS server 0 w) as [[n s1] w1]. simpl in Hfr.
  simpl. rewrite Hfr. apply Z.eqb_neq in Hl. rewrite Hl. simpl.
  match goal with
  | |- context [close_all ?k ?cs ?w2] =>
      pose proof (close_all_open k cs (listening_sock server) w2) as Hsub;
      destruct (close_all k cs w2) as [[] w3]
  end.
  simpl in *. intros Hin. apply Hsub in Hin.
  apply filter_In in Hin. destruct Hin as [_ Hne].
  rewrite Z.eqb_refl in Hne. discriminate.
Qed.

End FreeAndQuiet.

Section QuietPass.

Context {U : Type}.
Variable OS : os.

Implicit Types (w : world U) (server : ts_server U) (l : list ts_event).

Lemma emits_syscall_value {A : Type} (f : nat -> A) :
  emits (U := U) (syscall f) (fun a l => l = [] /\ exists t, a = f t).
Proof.
  intros w. exists []. unfold event_names; simpl. rewrite app_nil_r.
  repeat split. now exists (w_tick w).
Qed.

Lemma emits_poll_io_idle server (milli now : Z) :
  select_idle OS ->
  emits (poll_io OS server milli now) (fun _ l => Forall sweep_event l).
Proof.
  intros Hidle. unfold poll_io.
  apply (emits_bind_to _ _ _ _
           (emits_poll_prepare (callback server)
                               (active_connections server) _)).
  intros [r i]. simpl fst. simpl snd.
  apply (emits_bind_to _ _ _ _ (emits_syscall_value _)).
  intros [[sr rready] wready].
  destruct (0 <? sr) eqn:E.
  - apply Z.ltb_lt in E.
    apply (emits_weaken _ _ _
             (emits_bind _ _ _ _ (emits_accept_step OS _ _ now)
                (fun s2 =>
                   emits_bind _ _ _ _
                     (emits_poll_service OS _ _ _ now _)
                     (fun conns =>
                        emits_ret (set_active_connections s2 conns))))).
    intros b l _ l1 [_ [t Ht]]. exfalso.
    pose proof (Hidle t (wrap_int (max_fd i + 1)) (read_set i) (write_set i)
                      (Z.quot milli 1000)
                      (wrap_int (Z.rem milli 1000 * 1000))) as Hle.
    rewrite <- Ht in Hle. simpl in Hle. lia.
  - apply emits_ret_to.
    intros ls [-> _] lp (Hall & _). simpl. now rewrite app_nil_r.
Qed.

(** X9: when [select] reports no ready descriptor, a call of
    [ts_server_poll] emits [TS_POLL] and [TS_CLOSE] events only: nothing is
    accepted, read or written in that pass. *)
Theorem ts_server_poll_idle server (milli : Z) w :
  select_idle OS ->
  exists l,
    event_names (snd (ts_server_poll OS server milli w)) = event_names w ++ l
    /\ Forall sweep_event l.
Proof.
  intros Hidle.
  assert (H : emits (ts_server_poll OS server milli)
                    (fun _ l => Forall sweep_event l)).
  { unfold ts_server_poll.
    apply (emits_bind_to _ _ _ _ (emits_syscall _)). intros now.
    destruct (listening_sock server =? INVALID_SOCKET).
    - apply emits_ret_to. intros ls ->. constructor.
    - apply (emits_bind_to _ _ _ _ (emits_poll_io_idle server milli now Hidle)).
      intros s1.
      apply (emits_bind_to _ _ _ _ (emits_poll_reap (callback s1) _ 0)).
      intros r. apply emits_ret_to.
      intros lr [Hclose _] lio Hio ls ->. simpl. rewrite app_nil_r.
      apply Forall_app. split; [exact Hio |].
      revert Hclose. apply Forall_impl. intros e ->. now right. }
  destruct (H w) as (l & E & Hall). now exists l.
Qed.

End QuietPass.

(** Nothing becomes ready for a listening server with two connections. *)
Lemma ts_server_poll_idle_witness :
  exists l,
    event_names (snd (ts_server_poll calm_os bound_server 0 world0))
    = event_names world0 ++ l
    /\ Forall sweep_event l.
Proof.
  apply (ts_server_poll_idle calm_os bound_server 0 world0).
  intros t nfds rs ws sec usec. simpl. lia.
Defined.

(** ** Descriptor sets built before select *)

Lemma FD_ISSET_FD_SET_same (s : Z) (set : fd_set) :
  FD_ISSET s (FD_SET s set) = true.
Proof.
  unfold FD_SET. destruct (FD_ISSET s set) eqn:E; [exact E |].
  unfold FD_ISSET. simpl. now rewrite Z.eqb_refl.
Qed.

Lemma FD_ISSET_FD_SET_keep (x s : Z) (set : fd_set) :
  FD_ISSET x set = true -> FD_ISSET x (FD_SET s set) = true.
Proof.
  intros H. unfold FD_SET. destruct (FD_ISSET s set); [exact H |].
  unfold FD_ISSET in *. simpl. rewrite H. apply orb_true_r.
Qed.

Lemma FD_ISSET_FD_SET_inv (x s : Z) (set : fd_set) :
  FD_ISSET x (FD_SET s set) = true -> x = s \/ FD_ISSET x set = true.
Proof.
  unfold FD_SET. destruct (FD_ISSET s set); [now right |].
  unfold FD_ISSET. simpl. intros H. apply orb_true_iff in H.
  destruct H as [H | H]; [left; now apply Z.eqb_eq | now right].
Qed.

Lemma interest_le_refl (i : interest) : interest_le i i.
Proof. split; auto. Qed.

Lemma interest_le_trans (i j k : interest) :
  interest_le i j -> interest_le j k -> interest_le i k.
Proof. intros [A B] [C D]. split; auto. Qed.

Lemma arm_read_spec (s : Z) (i : interest) :
  interest_le i (arm_read s i) /\
  FD_ISSET s (read_set (arm_read s i)) = true /\
  (interest_bounded i -> interest_bounded (arm_read s i)).
Proof.
  unfold arm_read, add_to_set, interest_le, interest_bounded; simpl.
  repeat split; auto using FD_ISSET_FD_SET_keep, FD_ISSET_FD_SET_same.
  intros Hb x [H | H].
  - apply FD_ISSET_FD_SET_inv in H. destruct H as [-> | H].
    + destruct (max_fd i <? s) eqn:E; [lia | apply Z.ltb_ge in E; lia].
    + specialize (Hb x (or_introl H)).
      destruct (max_fd i <? s) eqn:E; [apply Z.ltb_lt in E; lia | lia].
  - specialize (Hb x (or_intror H)).
    destruct (max_fd i <? s) eqn:E; [apply Z.ltb_lt in E; lia | lia].
Qed.

Lemma arm_write_spec (s : Z) (i : interest) :
  interest_le i (arm_write s i) /\
  FD_ISSET s (write_set (arm_write s i)) = true /\
  (interest_bounded i -> interest_bounded (arm_write s i)).
Proof.
  unfold arm_write, add_to_set, interest_le, interest_bounded; simpl.
  repeat split; auto using FD_ISSET_FD_SET_keep, FD_ISSET_FD_SET_same.
  intros Hb x [H | H].
  - specialize (Hb x (or_introl H)).
    destruct (max_fd i <? s) eqn:E; [apply Z.ltb_lt in E; lia | lia].
  - apply FD_ISSET_FD_SET_inv in H. destruct H as [-> | H].
    + destruct (max_fd i <? s) eqn:E; [lia | apply Z.ltb_ge in E; lia].
    + specialize (Hb x (or_intror H)).
      destruct (max_fd i <? s) eqn:E; [apply Z.ltb_lt in E; lia | lia].
Qed.

Lemma armed_le (i j : interest) (c : ts_connection) :
  interest_le i j -> armed i c -> armed j c.
Proof. intros [Hr Hw] (A & B & C). repeat split; auto. Qed.

Section Interest.

Context {U : Type}.

Implicit Types (cb : option (ts_callback_t U)) (w : world U)
         (conns : list ts_connection) (i : interest).

Lemma poll_prepare_interest cb conns : forall i w r i' w',
  poll_prepare cb conns i w = (r, i', w') ->
  interest_le i i' /\
  (interest_bounded i -> interest_bounded i') /\
  Forall (armed i') r.
Proof.
  induction conns as [| c rest IH]; intros i w r i' w' Hrun; simpl in Hrun.
  - inversion Hrun; subst.
    split; [apply interest_le_refl |]. split; [auto | constructor].
  - unfold bind in Hrun.
    destruct (call_user cb c TS_POLL None w) as [c1 w1].
    set (i1 := arm_read (sock c1) i) in *.
    set (i2 := if has_flag c1 TSF_CONNECTING
               then arm_write (sock c1) i1 else i1) in *.
    assert (H1 : interest_le i i2 /\
                 (interest_bounded i -> interest_bounded i2) /\
                 FD_ISSET (sock c1) (read_set i2) = true /\
                 (has_flag c1 TSF_CONNECTING = true ->
                  FD_ISSET (sock c1) (write_set i2) = true)).
    { destruct (arm_read_spec (sock c1) i) as (La & Ra & Ba).
      subst i2. change (arm_read (sock c1) i) with i1 in La, Ra, Ba.
      destruct (has_flag c1 TSF_CONNECTING).
      - destruct (arm_write_spec (sock c1) i1) as (Lb & Wb & Bb).
        split; [eapply interest_le_trans; eassumption |].
        split; [auto |]. split; [now apply Lb | auto].
      - split; [exact La |]. split; [exact Ba |].
        split; [exact Ra | discriminate]. }
    destruct H1 as (Hle & Hbd & Hrd & Hcw).
    destruct ((0 <? len (send_iobuf c1))
              && negb (has_flag c1 TSF_BUFFER_BUT_DONT_SEND)) eqn:Epend.
    + destruct (arm_write_spec (sock c1) i2) as (Lc & Wc & Bc).
      destruct (poll_prepare cb rest (arm_write (sock c1) i2) w1)
        as [[r0 i0] w2] eqn:Erec.
      unfold ret in Hrun. simpl in Hrun. inversion Hrun; subst.
      destruct (IH _ _ _ _ _ Erec) as (Lr & Br & Ar).
      split; [eapply interest_le_trans; [exact Hle |];
              eapply interest_le_trans; eassumption |].
      split; [intros Hb0; apply Br, Bc, Hbd, Hb0 |].
      constructor; [| exact Ar].
      apply (armed_le (arm_write (sock c1) i2)); [exact Lr |].
      split; [apply Lc; exact Hrd |].
      split; [intros _; exact Wc | intros _ _; exact Wc].
    + destruct (has_flag c1 TSF_CLOSE_IMMEDIATELY).
      * destruct (close_conn cb c1 w1) as [[] w2].
        destruct (IH _ _ _ _ _ Hrun) as (Lr & Br & Ar).
        split; [eapply interest_le_trans; eassumption |].
        split; [intros Hb0; apply Br, Hbd, Hb0 | exact Ar].
      * destruct (poll_prepare cb rest i2 w1) as [[r0 i0] w2] eqn:Erec.
        unfold ret in Hrun. simpl in Hrun. inversion Hrun; subst.
        destruct (IH _ _ _ _ _ Erec) as (Lr & Br & Ar).
        split; [eapply interest_le_trans; eassumption |].
        split; [intros Hb0; apply Br, Hbd, Hb0 |].
        constructor; [| exact Ar].
        apply (armed_le i2); [exact Lr |].
        repeat split; [exact Hrd | exact Hcw |].
        intros Hlen Hsup. exfalso.
        apply Z.ltb_lt in Hlen. rewrite Hlen, Hsup in Epend. discriminate.
Qed.

(** X10: the descriptor sets the first loop of [ts_server_poll] hands to
    [select].  The listening socket is in the read set; every connection
    the loop keeps has its socket in the read set, and in the write set
    when it is connecting or has unsent bytes that are not held back; and
    [max_fd] is at least every descriptor of either set. *)
Theorem poll_prepare_arms cb conns (lsock : Z) w :
  let r := fst (poll_prepare cb conns (listener_interest lsock) w) in
  FD_ISSET lsock (read_set (snd r)) = true /\
  interest_bounded (snd r) /\
  Forall (armed (snd r)) (fst r).
Proof.
  destruct (poll_prepare cb conns (listener_interest lsock) w)
    as [[r i'] w'] eqn:Erun.
  destruct (poll_prepare_interest cb conns _ _ _ _ _ Erun) as (Hle & Hb & Ha).
  simpl.
  destruct (arm_read_spec lsock (mk_interest [] [] (-1))) as (_ & Hr & Hb0).
  split; [apply Hle; exact Hr |].
  split; [| exact Ha].
  apply Hb, Hb0. intros x [H | H]; discriminate.
Qed.

End Interest.

(** ** Accepting, listening and connecting *)

Section Setup.

Context {U : Type}.
Variable OS : os.

Implicit Types (w : world U) (server : ts_server U).


(** X12: [open_listening_socket] returns either the descriptor it obtained
    from [socket], which is then open, or [INVALID_SOCKET]; in the second
    case the address is as it was given and no descriptor is left open that
    was not open before: a socket created and then refused by [setsockopt],
    [bind] or [listen] is closed. *)
Theorem open_listening_socket_outcome (sa : socket_address) w :
  let s := os_socket OS (w_tick w) in
  let r := open_listening_socket OS sa w in
  (fst (fst r) = s /\ s <> INVALID_SOCKET /\ w_open (snd r) = s :: w_open w)
  \/
  (fst (fst r) = INVALID_SOCKET /\ snd (fst r) = sa /\
   (forall x, In x (w_open (snd r)) -> In x (w_open w)) /\
   (s <> INVALID_SOCKET -> ~ In s (w_open (snd r)))).
Proof.
  intros s r. subst r.
  unfold open_listening_socket, bind, syscall, opened; simpl. fold s.
  assert (Hclosed :
    forall t e tr (u : U),
      let w' := snd (closesocket s (mk_world t e (s :: w_open w) tr u)) in
      (forall x, In x (w_open w') -> In x (w_open w)) /\ ~ In s (w_open w')).
  { intros t e tr u. unfold closesocket; simpl. rewrite Z.eqb_refl; simpl.
    split.
    - intros x Hin. now apply filter_In in Hin.
    - intros Hin. apply filter_In in Hin. destruct Hin as [_ Hne].
      rewrite Z.eqb_refl in Hne. discriminate. }
  destruct (s =? INVALID_SOCKET) eqn:Es.
  - right. apply Z.eqb_eq in Es. unfold ret; simpl.
    split; [reflexivity |]. split; [reflexivity |].
    split; [auto | intros Hn; contradiction].
  - apply Z.eqb_neq in Es. simpl.
    destruct (negb (os_setsockopt OS (S (w_tick w)) s =? 0)); simpl.
    { right. destruct (Hclosed (S (w_tick w)) (w_errno w) (w_trace w) (w_user w))
        as [Hsub Hno].
      split; [reflexivity |]. split; [reflexivity |].
      split; [exact Hsub | intros _; exact Hno]. }
    destruct (negb (os_bind OS (S (S (w_tick w))) s sa =? 0)); simpl.
    { right. destruct (Hclosed (S (S (w_tick w))) (w_errno w) (w_trace w)
                               (w_user w)) as [Hsub Hno].
      split; [reflexivity |]. split; [reflexivity |].
      split; [exact Hsub | intros _; exact Hno]. }
    destruct (negb (os_listen OS (S (S (S (w_tick w)))) s =? 0)); simpl.
    { right. destruct (Hclosed (S (S (S (w_tick w)))) (w_errno w) (w_trace w)
                               (w_user w)) as [Hsub Hno].
      split; [reflexivity |]. split; [reflexivity |].
      split; [exact Hsub | intros _; exact Hno]. }
    left. repeat split. exact Es.
Qed.

(** X13: [ts_connect] never invokes the callback, and it either returns 0
    with the server unchanged, or returns 1 with exactly one connection
    added at the head of the list: its descriptor is the new socket, which
    is open, its buffers are empty, its only flag is [connecting] and its
    [connection_data] is the caller's parameter. *)
Theorem ts_connect_outcome server (host : option (list ascii))
        (port use_ssl param : Z) w :
  let r := ts_connect OS server host port use_ssl param w in
  w_trace (snd r) = w_trace w /\
  ((fst (fst r) = 0 /\ snd (fst r) = server)
   \/
   (fst (fst r) = 1 /\ use_ssl = 0 /\
    exists s, s <> INVALID_SOCKET /\ In s (w_open (snd r)) /\
      snd (fst r)
      = ADD_CONNECTION server
          (mk_conn s (mk_iobuf [] 0 0) (mk_iobuf [] 0 0)
                   TSF_CONNECTING 0 param))).
Proof.
  intros r. subst r. unfold ts_connect.
  destruct host as [h |]; [| split; [reflexivity | now left]].
  unfold bind, syscall; simpl.
  destruct (os_gethostbyname OS (w_tick w) h) as [addr |];
    [| split; [reflexivity | now left]].
  unfold opened; simpl.
  set (s := os_socket OS (S (w_tick w))).
  destruct (s =? INVALID_SOCKET) eqn:Es;
    [split; [reflexivity | now left] |].
  apply Z.eqb_neq in Es. simpl.
  destruct (use_ssl =? 0) eqn:Essl; simpl;
    [| split; [reflexivity | now left]].
  apply Z.eqb_eq in Essl.
  unfold set_non_blocking_mode, syscall_errno, bind, syscall; simpl.
  destruct (os_connect OS _ s _) as [cr ce]; simpl.
  unfold is_error, bind, get_errno, ret; simpl.
  destruct ((cr =? 0) || _); simpl; [split; [reflexivity | now left] |].
  destruct (os_malloc OS _); simpl.
  - split; [reflexivity |]. right. repeat split; [exact Essl |].
    exists s. repeat split; [exact Es | now left].
  - unfold closesocket; simpl. split; [reflexivity | now left].
Qed.

End Setup.

(** ** What the receive and send passes do to a connection *)

Lemma has_flag_flag_off (conn : ts_connection) (f : Z) :
  has_flag (flag_off conn f) f = false.
Proof.
  unfold has_flag, flag_off; simpl.
  apply negb_false_iff, Z.eqb_eq.
  rewrite <- Z.land_assoc, (Z.land_comm (Z.lnot f) f), Z.land_lnot_diag.
  apply Z.land_0_r.
Qed.

Lemma doomed_flag_on (conn : ts_connection) :
  doomed (flag_on conn TSF_CLOSE_IMMEDIATELY) = true.
Proof. apply has_flag_flag_on. discriminate. Qed.

(** Marking a connection for closing leaves it marked through the
    "finished sending" test. *)
Lemma doomed_after_test (c : ts_connection) :
  doomed c = true ->
  doomed (if (len (send_iobuf c) =? 0)
             && has_flag c TSF_FINISHED_SENDING_DATA
          then flag_on c TSF_CLOSE_IMMEDIATELY else c) = true.
Proof.
  intros H. destruct (_ && _); [apply doomed_flag_on | exact H].
Qed.

Section Passes2.

Context {U : Type}.
Variable OS : os.

Implicit Types (cb : option (ts_callback_t U)) (w : world U)
         (conn : ts_connection).

(** X14: the first readiness of a connecting socket.  [read_from_socket]
    makes one system call (it asks for the socket's error and does not
    read) and emits [TS_CONNECT] once, for the connection with [connecting]
    cleared and with the socket's error as payload (1 when it cannot be
    asked).  The status it tests afterwards is the one the callback left in
    the payload, which is the socket's error when the callback stored
    nothing or there is none: when that status is not zero the connection
    is returned marked for closing, otherwise as the callback left it. *)
Theorem read_from_socket_completes_connect cb conn w :
  has_flag conn TSF_CONNECTING = true ->
  let status := match os_getsockopt_error OS (w_tick w) (sock conn) with
                | Some v => v
                | None => 1
                end in
  let c0 := flag_off conn TSF_CONNECTING in
  let answer := match cb with
                | Some f => f (w_user w) c0 TS_CONNECT (Some status)
                | None => (w_user w, c0, None)
                end in
  let ok := match snd answer with Some v => v | None => status end in
  let r := read_from_socket OS cb conn w in
  w_trace (snd r) = w_trace w ++ [(c0, TS_CONNECT, Some status)] /\
  has_flag c0 TSF_CONNECTING = false /\
  w_tick (snd r) = S (w_tick w) /\
  fst r = (if ok =? 0 then snd (fst answer)
           else flag_on (snd (fst answer)) TSF_CLOSE_IMMEDIATELY) /\
  (ok <> 0 -> doomed (fst r) = true).
Proof.
  intros Hc status c0 answer ok r.
  assert (Hrun : r = (if ok =? 0 then snd (fst answer)
                      else flag_on (snd (fst answer)) TSF_CLOSE_IMMEDIATELY,
                      mk_world (S (w_tick w)) (w_errno w) (w_open w)
                               (w_trace w ++ [(c0, TS_CONNECT, Some status)])
                               (fst (fst answer)))).
  { subst r ok answer. unfold read_from_socket. rewrite Hc.
    unfold bind, syscall, ret, call_user_payload; simpl.
    fold status. fold c0.
    destruct cb as [f |]; simpl.
    - destruct (f (w_user w) c0 TS_CONNECT (Some status)) as [[u c1] st].
      simpl. destruct (_ =? 0); reflexivity.
    - destruct (status =? 0); reflexivity. }
  rewrite Hrun. simpl.
  split; [reflexivity |]. split; [apply has_flag_flag_off |].
  split; [reflexivity |]. split; [reflexivity |].
  intros Hok. apply Z.eqb_neq in Hok. rewrite Hok. apply doomed_flag_on.
Qed.

(** X15: a read that delivers bytes.  When [recv] returns [n > 0] on a
    connection that is not connecting and the receive buffer accepts the
    [n] bytes, the first event emitted is [TS_RECV], for a connection whose
    receive buffer holds the old bytes followed by the [n] received ones and
    whose send buffer and flags are untouched. *)
Theorem read_from_socket_appends cb conn w :
  has_flag conn TSF_CONNECTING = false ->
  let n := fst (fst (os_recv OS (w_tick w) (sock conn) 2048)) in
  let data := snd (os_recv OS (w_tick w) (sock conn) 2048) in
  let io := recv_iobuf conn in
  iobuf_ok io -> 0 < n -> len io + n <= INT_MAX ->
  (size io <= len io + n -> 2 * (len io + n) <= INT_MAX) ->
  snd (iobuf_append (os_realloc OS (S (w_tick w))) io data n) = n ->
  exists c tl,
    w_trace (snd (read_from_socket OS cb conn w))
    = w_trace w ++ (c, TS_RECV, None) :: tl /\
    iobuf_data (recv_iobuf c) = iobuf_data io ++ read_bytes data n /\
    send_iobuf c = send_iobuf conn /\ flags c = flags conn.
Proof.
  intros Hc n data io Hok Hn Hsum Hreq Hk.
  destruct (iobuf_append_success _ io data n Hok Hn Hsum Hreq Hk)
    as (Hd & _ & _).
  subst n data io. unfold read_from_socket. rewrite Hc.
  unfold bind at 1. unfold recv.
  destruct (os_recv OS (w_tick w) (sock conn) 2048) as [[n e] data].
  simpl in *. unfold bind at 1. unfold is_error, bind, get_errno, ret; simpl.
  assert (E0 : (n =? 0) = false) by (apply Z.eqb_neq; lia).
  assert (E1 : (n <? 0) = false) by (apply Z.ltb_ge; lia).
  assert (E2 : (0 <? n) = true) by (apply Z.ltb_lt; lia).
  rewrite E0, E1, E2; simpl. unfold iobuf_append_m; simpl.
  set (c := set_recv_iobuf conn _).
  exists c. unfold call_user at 2.
  destruct cb as [f |]; simpl.
  - destruct (f (w_user w) c TS_RECV None) as [[u c1] st1]; simpl.
    destruct (f u c1 TS_RECV None) as [[u2 c2] st2]; simpl.
    exists [(c1, TS_RECV, None)]. rewrite <- app_assoc.
    repeat split. exact Hd.
  - exists [(c, TS_RECV, None)]. rewrite <- app_assoc.
    repeat split. exact Hd.
Qed.

(** X16: what [write_to_socket] does with the result [n] of [send], read on
    the connection it emits [TS_SEND] for.  [send] is offered exactly the
    valid bytes of the send buffer; for [0 < n <= len] the first [n] bytes
    leave the buffer and the rest stay in order; for [n = 0], and for a
    negative [n] whose [errno] is not one of the retry codes, the connection
    is marked for closing; for every negative [n] the send buffer is left
    as it is. *)
Theorem write_to_socket_outcome cb conn w :
  iobuf_ok (send_iobuf conn) ->
  let sent := os_send OS (w_tick w) (sock conn) (iobuf_data (send_iobuf conn)) in
  let n := fst sent in
  exists c,
    w_trace (snd (write_to_socket OS cb conn w))
    = w_trace w ++ [(c, TS_SEND, None)] /\
    (0 < n <= len (send_iobuf conn) ->
     iobuf_data (send_iobuf c)
     = skipn (Z.to_nat n) (iobuf_data (send_iobuf conn))) /\
    (n = 0 -> doomed c = true) /\
    (n < 0 -> snd sent <> EINTR -> snd sent <> EINPROGRESS ->
     snd sent <> EAGAIN -> doomed c = true) /\
    (n < 0 -> send_iobuf c = send_iobuf conn).
Proof.
  intros Hok sent n. subst n sent.
  unfold write_to_socket, bind, syscall_errno, is_error, get_errno, ret; simpl.
  destruct (os_send OS (w_tick w) (sock conn) (iobuf_data (send_iobuf conn)))
    as [n e]; simpl.
  match goal with
  | |- context [call_user cb ?c TS_SEND None ?w1] =>
      exists c; set (w0 := w1)
  end.
  split.
  { unfold call_user. destruct cb as [f |]; simpl; [| reflexivity].
    match goal with
    | |- context [f ?u ?c ?ev ?p] => destruct (f u c ev p) as [[u1 c1] st]
    end.
    reflexivity. }
  split.
  { intros [Hpos Hle].
    assert (E0 : (n =? 0) = false) by (apply Z.eqb_neq; lia).
    assert (E1 : (n <? 0) = false) by (apply Z.ltb_ge; lia).
    assert (E2 : (0 <? n) = true) by (apply Z.ltb_lt; lia).
    rewrite E0, E1, E2; simpl.
    destruct (iobuf_remove_in_range (send_iobuf conn) n Hok) as (Hd & _);
      [lia |].
    destruct (_ && _); simpl; exact Hd. }
  split.
  { intros ->. simpl.
    apply (doomed_after_test (flag_on conn TSF_CLOSE_IMMEDIATELY)).
    apply doomed_flag_on. }
  split.
  { intros Hneg H1 H2 H3.
    assert (E0 : (n =? 0) = false) by (apply Z.eqb_neq; lia).
    assert (E1 : (n <? 0) = true) by (apply Z.ltb_lt; lia).
    apply Z.eqb_neq in H1, H2, H3.
    unfold EWOULDBLOCK, EAGAIN in *. rewrite E0, E1, H1, H2, H3; simpl.
    apply (doomed_after_test (flag_on conn TSF_CLOSE_IMMEDIATELY)).
    apply doomed_flag_on. }
  intros Hneg.
  assert (E2 : (0 <? n) = false) by (apply Z.ltb_ge; lia).
  rewrite E2. destruct ((n =? 0) || _); destruct (_ && _); reflexivity.
Qed.

End Passes2.

(** The connecting sample connection becomes ready; its socket reports no
    error and the callback stores nothing. *)
Lemma read_from_socket_completes_connect_witness :
  let r := read_from_socket calm_os (Some quiet_callback) connecting_conn
                            world0 in
  w_trace (snd r)
  = [(flag_off connecting_conn TSF_CONNECTING, TS_CONNECT, Some 0)] /\
  w_tick (snd r) = 1%nat /\
  fst r = flag_off connecting_conn TSF_CONNECTING.
Proof.
  destruct (read_from_socket_completes_connect
              calm_os (Some quiet_callback) connecting_conn world0)
    as (Ht & _ & Hk & Hr & _).
  - reflexivity.
  - split; [exact Ht |]. split; [exact Hk | exact Hr].
Defined.

(** Five bytes arrive on the idle sample connection. *)
Lemma read_from_socket_appends_witness :
  exists c tl,
    w_trace (snd (read_from_socket hello_os (Some quiet_callback) idle_conn
                                   world0))
    = (c, TS_RECV, None) :: tl /\
    iobuf_data (recv_iobuf c) = hello.
Proof.
  destruct (read_from_socket_appends
              hello_os (Some quiet_callback) idle_conn world0)
    as (c & tl & Ht & Hd & _).
  - reflexivity.
  - unfold iobuf_ok, INT_MAX; simpl; lia.
  - simpl; lia.
  - unfold INT_MAX; simpl; lia.
  - intros _; unfold INT_MAX; simpl; lia.
  - reflexivity.
  - exists c, tl. split; [exact Ht | exact Hd].
Defined.

(** The three queued bytes of the sample connection are taken by [send]. *)
Lemma write_to_socket_outcome_witness :
  exists c,
    w_trace (snd (write_to_socket sending_os (Some quiet_callback) bye_conn
                                  world0))
    = [(c, TS_SEND, None)] /\
    iobuf_data (send_iobuf c) = [].
Proof.
  destruct (write_to_socket_outcome
              sending_os (Some quiet_callback) bye_conn world0)
    as (c & Ht & Hpos & _).
  - unfold iobuf_ok, bye_conn, INT_MAX; simpl; lia.
  - exists c. split; [exact Ht |].
    apply Hpos. simpl; lia.
Defined.

(** The status is read back after the callback: with a refused connection,
    a callback that leaves the status alone gets the connection marked for
    closing, and one that stores 0 in it does not. *)
Example read_from_socket_status_read_back :
  doomed (fst (read_from_socket late_refusal_os (Some quiet_callback)
                                connecting_conn world0)) = true /\
  doomed (fst (read_from_socket late_refusal_os (Some forgiving_callback)
                                connecting_conn world0)) = false.
Proof. split; reflexivity. Qed.
